(** * HAROS: HPL condition compiler and strategy catalog

    A shallow embedding of [haros/hpl/hypothesis_strategies.py] and
    [haros/hpl/test_generator.py].  Python objects become records and
    inductive types, dictionaries become [gmap]s, exceptions become the
    [Raise] outcome of a small result type, and the attributes of a
    mutated object are threaded explicitly through the calls. *)

From Stdlib Require Import ZArith Ascii String List.
From Stdlib Require Qcanon.
From stdpp Require Import base numbers option list gmap strings pretty.

Local Open Scope Z_scope.
Set Warnings "-register-all".

(** ** Python values, exceptions and string primitives *)

Module Py.

(** The exceptions the two modules raise or run into. *)
Inductive exn : Type :=
  | TypeError
  | ValueError
  | AttributeError
  | IndexError
  | AssertionError
  | KeyError
  | NameError
  | UnboundLocalError.

#[global] Instance exn_eq_dec : EqDecision exn.
Proof. solve_decision. Defined.

(** Outcome of a call: a value, or a raised exception. *)
Inductive result (A : Type) : Type :=
  | Ok (a : A)
  | Raise (e : exn).
Arguments Ok {A} a.
Arguments Raise {A} e.

Definition bind {A B : Type} (r : result A) (k : A → result B) : result B :=
  match r with
  | Ok a => k a
  | Raise e => Raise e
  end.

Definition raises {A : Type} (r : result A) : Prop := ∃ e, r = Raise e.

(** [assert cond] *)
Definition assert (cond : bool) : result unit :=
  if cond then Ok tt else Raise AssertionError.

(** [for x in xs: body], threading an accumulator and stopping at the
    first exception. *)
Fixpoint foldM {A B : Type} (f : B → A → result B) (acc : B) (xs : list A)
  : result B :=
  match xs with
  | [] => Ok acc
  | x :: xs' => bind (f acc x) (λ acc', foldM f acc' xs')
  end.

(** A list comprehension whose element expression may raise. *)
Fixpoint mapM {A B : Type} (f : A → result B) (xs : list A)
  : result (list B) :=
  match xs with
  | [] => Ok []
  | x :: xs' => bind (f x) (λ y, bind (mapM f xs') (λ ys, Ok (y :: ys)))
  end.

(** The values literals and modifier arguments carry.  [PyInt] is a
    plain [int], [PyLong] a [long]; a value of another type ([str],
    [float]) is carried by the text [repr] and [str] give for it. *)
Inductive value : Type :=
  | PyInt (z : Z)
  | PyLong (z : Z)
  | PyBool (b : bool)
  | PyText (repr_text str_text : string).

(** [repr(v)] *)
Definition repr (v : value) : string :=
  match v with
  | PyInt z => pretty z
  | PyLong z => pretty z +:+ "L"
  | PyBool b => if b then "True" else "False"
  | PyText r _ => r
  end.

(** [str(v)], which is also what a [{}] field of [str.format] shows. *)
Definition str (v : value) : string :=
  match v with
  | PyInt z => pretty z
  | PyLong z => pretty z
  | PyBool b => if b then "True" else "False"
  | PyText _ s => s
  end.

(** [sep.join(parts)] *)
Fixpoint join (sep : string) (parts : list string) : string :=
  match parts with
  | [] => ""
  | [p] => p
  | p :: ps => p +:+ sep +:+ join sep ps
  end.

(** A run of [n] spaces, as in the indentation of the templates. *)
Fixpoint spaces (n : nat) : string :=
  match n with
  | O => ""
  | S n' => String " " (spaces n')
  end.

(** [s.replace(old, new)] for one-character [old] and [new]. *)
Fixpoint replace (old new : ascii) (s : string) : string :=
  match s with
  | EmptyString => EmptyString
  | String c s' =>
      String (if Ascii.eqb c old then new else c) (replace old new s')
  end.

(** [c in s] for a one-character [c]. *)
Fixpoint contains (c : ascii) (s : string) : bool :=
  match s with
  | EmptyString => false
  | String d s' => Ascii.eqb d c || contains c s'
  end.

(** [tmpl.format(a1, ..., an)] for templates whose replacement fields are all
    the automatic [{}]; [{{] and [}}] are the escaped braces.  A lone
    brace raises ValueError as in Python.  Replacement fields with an
    explicit index or name, a conversion or a format spec are outside
    this embedding (they stop with ValueError here): the templates
    that are run through [format] below hold none, and the templates
    with named fields are rendered field by field.
    Surplus arguments are ignored, a missing one raises IndexError. *)
Fixpoint format (tmpl : string) (args : list string) : result string :=
  match tmpl with
  | EmptyString => Ok EmptyString
  | String c rest =>
      if Ascii.eqb c "{" then
        match rest with
        | EmptyString => Raise ValueError
        | String d rest' =>
            if Ascii.eqb d "{" then
              bind (format rest' args) (λ r, Ok (String "{" r))
            else if Ascii.eqb d "}" then
              match args with
              | [] => Raise IndexError
              | a :: args' => bind (format rest' args') (λ r, Ok (a +:+ r))
              end
            else Raise ValueError
        end
      else if Ascii.eqb c "}" then
        match rest with
        | EmptyString => Raise ValueError
        | String d rest' =>
            if Ascii.eqb d "}" then
              bind (format rest' args) (λ r, Ok (String "}" r))
            else Raise ValueError
        end
      else bind (format rest args) (λ r, Ok (String c r))
  end.

#[global] Instance result_bind : MBind result := λ A B k r, bind r k.
#[global] Instance result_ret : MRet result := @Ok.

(** A method that reads and mutates [self]: the object before the call
    goes in, the object after the call comes out with the outcome.  An
    exception leaves the mutations made so far in place. *)
Definition M (S A : Type) : Type := S → S * result A.

Definition M_bind {S A B : Type} (m : M S A) (k : A → M S B) : M S B :=
  λ s, match m s with
       | (s', Ok a) => k a s'
       | (s', Raise e) => (s', Raise e)
       end.

#[global] Instance M_mbind {S : Type} : MBind (M S) := λ A B k m, M_bind m k.
#[global] Instance M_mret {S : Type} : MRet (M S) := λ A a s, (s, Ok a).

Definition lift {S A : Type} (r : result A) : M S A := λ s, (s, r).
Definition get {S : Type} : M S S := λ s, (s, Ok s).
Definition modify {S : Type} (f : S → S) : M S unit := λ s, (f s, Ok tt).

(** [for x in xs: body] with a body that mutates [self]. *)
Fixpoint for_each {S A : Type} (xs : list A) (body : A → M S unit)
  : M S unit :=
  match xs with
  | [] => mret tt
  | x :: xs' => M_bind (body x) (λ _, for_each xs' body)
  end.

(** An argument that is expected to be a [dict] with string keys. *)
Inductive dict_arg (A : Type) : Type :=
  | NotADict
  | Dict (d : gmap string A).
Arguments NotADict {A}.
Arguments Dict {A} d.

(** [isinstance(x, dict)] *)
Definition isinstance_dict {A : Type} (x : dict_arg A) : bool :=
  match x with
  | NotADict => false
  | Dict _ => true
  end.

(** [x.iteritems()], which a value that is not a dict does not have. *)
Definition iteritems {A : Type} (x : dict_arg A)
  : result (list (string * A)) :=
  match x with
  | NotADict => Raise AttributeError
  | Dict d => Ok (map_to_list d)
  end.

End Py.

Export Py.

(** ** hypothesis_strategies.py *)

(** Modelled from the spec: the constants and the type tokens of
    [ros_types], a module of the repository that is not among the
    sources.  The constants are the natural ranges of the integer
    widths; a type token carries the name of its (element) type,
    whether it is an array, and the fixed length of the array if any
    ([None] for a scalar and for an unbounded array). *)
Definition INT8_MIN_VALUE : Z := -128.
Definition INT8_MAX_VALUE : Z := 127.
Definition INT16_MIN_VALUE : Z := -32768.
Definition INT16_MAX_VALUE : Z := 32767.
Definition INT32_MIN_VALUE : Z := -2147483648.
Definition INT32_MAX_VALUE : Z := 2147483647.
Definition INT64_MIN_VALUE : Z := -9223372036854775808.
Definition INT64_MAX_VALUE : Z := 9223372036854775807.
Definition UINT8_MAX_VALUE : Z := 255.
Definition UINT16_MAX_VALUE : Z := 65535.
Definition UINT32_MAX_VALUE : Z := 4294967295.
Definition UINT64_MAX_VALUE : Z := 18446744073709551615.

Module TypeToken.
Record t : Type := mk {
  ros_type : string;
  is_array : bool;
  length : option Z
}.
End TypeToken.

(** [TypeToken(ros_type)] and [ArrayTypeToken(ros_type, length=None)] *)
Definition TypeToken (ros_type : string) : TypeToken.t :=
  TypeToken.mk ros_type false None.
Definition ArrayTypeToken (ros_type : string) (length : option Z)
  : TypeToken.t :=
  TypeToken.mk ros_type true length.

(** *** Strategies of a field: [Reuse], [Arrays], [ByteArrays],
    [Integers], [Booleans], [Strings] *)

Inductive Strategy : Type :=
  | Reuse (strategy_name : string)
  | Arrays (base_strategy : Strategy) (length : option Z)
  | ByteArrays (length : option Z)
  | Integers (min_value max_value : option Z)
  | Booleans
  | Strings.

#[global] Instance Strategy_eq_dec : EqDecision Strategy.
Proof. solve_decision. Defined.

(** [Reuse.from_ros_type] *)
Definition Reuse_from_ros_type (ros_type : string) : result Strategy :=
  if contains "/" ros_type then Ok (Reuse (replace "/" "_" ros_type))
  else if String.eqb ros_type "Header" then Ok (Reuse "std_msgs_Header")
  else Ok (Reuse ("ros_" +:+ ros_type)).

(** How [format] shows an optional integer. *)
Definition str_opt (o : option Z) : string :=
  match o with
  | None => "None"
  | Some z => pretty z
  end.

(** The [to_python(module)] methods of the field strategies. *)
Fixpoint Strategy_to_python (s : Strategy) (module : string)
  : result string :=
  match s with
  | Reuse strategy_name => Ok (strategy_name +:+ "()")
  | Arrays base_strategy length =>
      match length with
      | None =>
          (* the element is rendered with the default module *)
          b ← Strategy_to_python base_strategy "strategies";
          format "{}.lists(elements={}, min_size=0, max_size=256)"
                 [module; b]
      | Some n =>
          _ ← assert (n >=? 0);
          b ← Strategy_to_python base_strategy module;
          format ("{}.tuples(" +:+ "*[{} for i in xrange({})])")
                 [module; b; pretty n]
      end
  | ByteArrays length =>
      let n := match length with None => 256 | Some n => n end in
      _ ← assert (n >=? 0);
      format "{}.binary(min_size=0, max_size={})" [module; pretty n]
  | Integers min_value max_value =>
      format "{}.integers(min_value={}, max_value={})"
             [module; str_opt min_value; str_opt max_value]
  | Booleans => Ok (module +:+ ".booleans()")
  | Strings => Ok (module +:+ ".binary(min_size=0, max_size=256)")
  end.

(** *** Field modifiers *)

Inductive Modifier : Type :=
  | FixedValueModifier (value : Py.value)
  | StrategyModifier (strategy : Strategy)
  | ExclusionModifier (value : Py.value)
  | FixedIndexModifier (index : Z) (modifier : Modifier)
  | RandomIndexModifier (modifier : Modifier).

(** [RandomIndexModifier.IDX], filled in. *)
Definition RandomIndexModifier_IDX (indent module var field : string)
  : string :=
  indent +:+ "i = draw(" +:+ module +:+ ".integers(min_value=0, "
  +:+ "max_value=len(" +:+ var +:+ "." +:+ field +:+ ")))".

(** The [to_python(field_name, var_name, module, indent, tab_size)]
    methods of the modifiers. *)
Fixpoint Modifier_to_python (m : Modifier) (field_name var_name module : string)
    (indent tab_size : nat) : result string :=
  match m with
  | FixedValueModifier value =>
      Ok (spaces indent +:+ var_name +:+ "." +:+ field_name +:+ " = "
          +:+ str value)
  | StrategyModifier strategy =>
      s ← Strategy_to_python strategy module;
      Ok (spaces indent +:+ var_name +:+ "." +:+ field_name +:+ " = draw("
          +:+ s +:+ ")")
  | ExclusionModifier value =>
      Ok (spaces indent +:+ "assume(" +:+ var_name +:+ "." +:+ field_name
          +:+ " != " +:+ str value +:+ ")")
  | FixedIndexModifier index modifier =>
      field ← format "{}[{}]" [field_name; pretty index];
      Modifier_to_python modifier field var_name module indent tab_size
  | RandomIndexModifier modifier =>
      let index :=
        RandomIndexModifier_IDX (spaces indent) module var_name field_name in
      let field := field_name +:+ "[i]" in
      modifier ←
        Modifier_to_python modifier field var_name module indent tab_size;
      Ok (index +:+ String "010" modifier)
  end.

(** *** [FieldStrategy] and the top-level strategies *)

Record FieldStrategy : Type := mkFieldStrategy {
  field_name : string;
  strategy : option Strategy;
  modifiers : list Modifier
}.

(** [FieldStrategy(field_name, strategy=None)] *)
Definition FieldStrategy_init (field_name : string)
    (strategy : option Strategy) : FieldStrategy :=
  mkFieldStrategy field_name strategy [].

Record MsgStrategy : Type := mkMsgStrategy {
  msg_type : string;
  fields : gmap string FieldStrategy;
  _name : string
}.

(** [MsgStrategy(msg_type, name=None)]; an empty [name] is as false as
    [None] in [name if name else ...]. *)
Definition MsgStrategy_init (msg_type : string) (name : option string)
  : MsgStrategy :=
  mkMsgStrategy msg_type ∅
    match name with
    | Some n => if String.eqb n "" then replace "/" "_" msg_type else n
    | None => replace "/" "_" msg_type
    end.

Inductive TopLevelStrategy : Type :=
  | RosBoolStrategy
  | RosIntStrategy (ros_type : string)
  | RosFloatStrategy (ros_type : string)
  | RosStringStrategy
  | RosTimeStrategy
  | RosDurationStrategy
  | HeaderStrategy
  | Msg (m : MsgStrategy).

(** The [name] property. *)
Definition name (s : TopLevelStrategy) : string :=
  match s with
  | RosBoolStrategy => "ros_" +:+ "bool"
  | RosIntStrategy ros_type => "ros_" +:+ ros_type
  | RosFloatStrategy ros_type => "ros_" +:+ ros_type
  | RosStringStrategy => "ros_" +:+ "string"
  | RosTimeStrategy => "ros_" +:+ "time"
  | RosDurationStrategy => "ros_" +:+ "duration"
  | HeaderStrategy => "std_msgs_Header"
  | Msg m => _name m
  end.

(** [RosIntStrategy.TYPES] *)
Definition RosIntStrategy_TYPES : list (string * (Z * Z)) :=
  [ ("char", (0, UINT8_MAX_VALUE));
    ("uint8", (0, UINT8_MAX_VALUE));
    ("byte", (INT8_MIN_VALUE, INT8_MAX_VALUE));
    ("int8", (INT8_MIN_VALUE, INT8_MAX_VALUE));
    ("uint16", (0, UINT16_MAX_VALUE));
    ("int16", (INT16_MIN_VALUE, INT16_MAX_VALUE));
    ("uint32", (0, UINT32_MAX_VALUE));
    ("int32", (INT32_MIN_VALUE, INT32_MAX_VALUE));
    ("uint64", (0, UINT64_MAX_VALUE));
    ("int64", (INT64_MIN_VALUE, INT64_MAX_VALUE)) ].

(** The keys of [RosFloatStrategy.TYPES]. *)
Definition RosFloatStrategy_TYPES : list string := ["float32"; "float64"].

(** [TYPES[ros_type]] *)
Fixpoint lookup_type {V : Type} (ros_type : string)
    (types : list (string * V)) : result V :=
  match types with
  | [] => Raise KeyError
  | (k, v) :: rest =>
      if String.eqb k ros_type then Ok v else lookup_type ros_type rest
  end.

(** [RosBuiltinStrategy.__init__], as [RosIntStrategy(ros_type)] and
    [RosFloatStrategy(ros_type)] reach it. *)
Definition RosIntStrategy_init (ros_type : string)
  : result TopLevelStrategy :=
  if bool_decide (ros_type ∈ RosIntStrategy_TYPES.*1)
  then Ok (RosIntStrategy ros_type) else Raise ValueError.

Definition RosFloatStrategy_init (ros_type : string)
  : result TopLevelStrategy :=
  if bool_decide (ros_type ∈ RosFloatStrategy_TYPES)
  then Ok (RosFloatStrategy ros_type) else Raise ValueError.

(** *** The text [RosIntStrategy.to_python] renders, and what it does

    The rendered function is kept as a small syntax tree: the guard of
    its [if] is a disjunction of comparisons between the two parameters
    and the natural bounds, and its [return] draws integers between two
    clamped bounds.  The tree is printed to the text of [TMP] and
    evaluated at the arguments of a call. *)

Inductive Term : Type :=
  | min_value
  | max_value
  | Const (z : Z).

Inductive Cmp : Type := Le | Ge | Gt.

Definition Term_text (t : Term) : string :=
  match t with
  | min_value => "min_value"
  | max_value => "max_value"
  | Const z => pretty z
  end.

Definition Cmp_text (c : Cmp) : string :=
  match c with Le => "<=" | Ge => ">=" | Gt => ">" end.

Definition Term_eval (caller_min caller_max : Z) (t : Term) : Z :=
  match t with
  | min_value => caller_min
  | max_value => caller_max
  | Const z => z
  end.

Definition Cmp_eval (c : Cmp) (a b : Z) : bool :=
  match c with
  | Le => a <=? b
  | Ge => a >=? b
  | Gt => a >? b
  end.

(** The condition of the [if] in [TMP]. *)
Definition TMP_guard (minv maxv : Z) : list (Term * Cmp * Term) :=
  [ (min_value, Le, Const minv);
    (min_value, Ge, Const maxv);
    (max_value, Le, Const minv);
    (max_value, Ge, Const maxv);
    (min_value, Gt, max_value) ].

Definition guard_text (g : list (Term * Cmp * Term)) : string :=
  join " or "
    (map (λ '(a, c, b), Term_text a +:+ " " +:+ Cmp_text c +:+ " "
                        +:+ Term_text b) g).

Definition guard_eval (caller_min caller_max : Z)
    (g : list (Term * Cmp * Term)) : bool :=
  existsb (λ '(a, c, b),
             Cmp_eval c (Term_eval caller_min caller_max a)
                        (Term_eval caller_min caller_max b)) g.

(** [RosIntStrategy.to_python] *)
Definition RosIntStrategy_to_python (ros_type module : string)
    (indent tab_size : nat) : result string :=
  let ws := spaces indent in
  let mws := spaces tab_size in
  '(minv, maxv) ← lookup_type ros_type RosIntStrategy_TYPES;
  Ok (ws +:+ "def ros_" +:+ ros_type +:+ "(min_value=" +:+ pretty minv
      +:+ ", max_value=" +:+ pretty maxv +:+ "):" +:+ String "010" (
      ws +:+ mws +:+ "if " +:+ guard_text (TMP_guard minv maxv) +:+ ":"
      +:+ String "010" (
      ws +:+ mws +:+ mws
      +:+ "raise ValueError('values out of bounds: {}, {}'"
      +:+ ".format(min_value, max_value))" +:+ String "010" (
      ws +:+ mws +:+ "return " +:+ module +:+ ".integers("
      +:+ "min_value=max(min_value, " +:+ pretty minv +:+ "), "
      +:+ "max_value=min(max_value, " +:+ pretty maxv +:+ "))")))).

(** A call [ros_<type>(min_value=a, max_value=b)] of the rendered
    function: ValueError when the guard holds, and otherwise the bounds
    handed to [integers]. *)
Definition ros_int_call (ros_type : string) (a b : Z) : result (Z * Z) :=
  '(minv, maxv) ← lookup_type ros_type RosIntStrategy_TYPES;
  if guard_eval a b (TMP_guard minv maxv) then Raise ValueError
  else Ok (Z.max a minv, Z.min b maxv).

(** The same call with the default arguments of the rendered [def]. *)
Definition ros_int_call_default (ros_type : string) : result (Z * Z) :=
  '(minv, maxv) ← lookup_type ros_type RosIntStrategy_TYPES;
  ros_int_call ros_type minv maxv.

(** [RosFloatStrategy.TMP] has the guard of the integer template word
    for word.  Finite floats are rationals and are compared as such;
    the natural bounds [FLOAT32_MIN_VALUE] and the like belong to
    [ros_types] and are arguments here. *)
Definition ros_float_guard (minv maxv a b : Qcanon.Qc) : bool :=
  bool_decide (Qcanon.Qcle a minv) || bool_decide (Qcanon.Qcle maxv a)
  || bool_decide (Qcanon.Qcle b minv) || bool_decide (Qcanon.Qcle maxv b)
  || bool_decide (Qcanon.Qclt b a).

Definition ros_float_call (minv maxv a b : Qcanon.Qc)
  : result (Qcanon.Qc * Qcanon.Qc) :=
  if ros_float_guard minv maxv a b then Raise ValueError
  else Ok (if bool_decide (Qcanon.Qcle a minv) then minv else a,
           if bool_decide (Qcanon.Qcle b maxv) then b else maxv).

(** *** [StrategyMap] *)

Record StrategyMap : Type := mkStrategyMap {
  defaults : gmap string TopLevelStrategy;
  custom : gmap string (list MsgStrategy)
}.

(** [StrategyMap._make_builtins]; the two loops run over the keys of
    the [TYPES] tables, for which the constructors do not raise. *)
Definition _make_builtins (self : StrategyMap) : StrategyMap :=
  let d := defaults self in
  let d := <["bool" := RosBoolStrategy]> d in
  let d := <["string" := RosStringStrategy]> d in
  let d := <["time" := RosTimeStrategy]> d in
  let d := <["duration" := RosDurationStrategy]> d in
  let d := <["std_msgs/Header" := HeaderStrategy]> d in
  let d := foldl (λ d ros_type, <[ros_type := RosIntStrategy ros_type]> d)
                 d RosIntStrategy_TYPES.*1 in
  let d := foldl (λ d ros_type, <[ros_type := RosFloatStrategy ros_type]> d)
                 d RosFloatStrategy_TYPES in
  mkStrategyMap d (custom self).

(** [StrategyMap()] *)
Definition StrategyMap_init : StrategyMap :=
  _make_builtins (mkStrategyMap ∅ ∅).

(** [StrategyMap.make_custom]: the new strategy and the map after the
    call. *)
Definition make_custom (self : StrategyMap) (msg_type : string)
  : StrategyMap * result MsgStrategy :=
  let lst :=
    match custom self !! msg_type with
    | Some (x :: l) => x :: l
    | _ => []
    end in
  match format "{}_v{}" [replace "/" "_" msg_type;
                         pretty (S (List.length lst))] with
  | Ok name =>
      let strategy := MsgStrategy_init msg_type (Some name) in
      (mkStrategyMap (defaults self)
         (<[msg_type := lst ++ [strategy]]> (custom self)),
       Ok strategy)
  | Raise e =>
      (mkStrategyMap (defaults self) (<[msg_type := lst]> (custom self)),
       Raise e)
  end.

(** [StrategyMap._default] *)
Definition _default (type_token : TypeToken.t) : result Strategy :=
  if String.eqb (TypeToken.ros_type type_token) "uint8"
     && TypeToken.is_array type_token
  then Ok (ByteArrays (TypeToken.length type_token))
  else
    strategy ← Reuse_from_ros_type (TypeToken.ros_type type_token);
    if TypeToken.is_array type_token
    then Ok (Arrays strategy (TypeToken.length type_token))
    else Ok strategy.

(** [strategy.fields[field_name] = field] for the strategy object that
    [self.defaults[msg_type]] holds. *)
Definition set_field (msg_type : string) (field : FieldStrategy)
    (self : StrategyMap) : StrategyMap :=
  mkStrategyMap
    (alter (λ s, match s with
                 | Msg (mkMsgStrategy t fs n) =>
                     Msg (mkMsgStrategy t (<[field_name field := field]> fs) n)
                 | other => other
                 end) msg_type (defaults self))
    (custom self).

(** [StrategyMap.make_defaults] *)
Definition make_defaults (msg_data : dict_arg (dict_arg TypeToken.t))
  : M StrategyMap unit :=
  match msg_data with
  | NotADict => lift (Raise TypeError)
  | Dict d =>
      if negb (forallb isinstance_dict (map_to_list d).*2)
      then lift (Raise TypeError)
      else
        for_each (map_to_list d) (λ '(msg_type, data),
          modify (λ self,
            mkStrategyMap
              (<[msg_type := Msg (MsgStrategy_init msg_type None)]>
                 (defaults self))
              (custom self)) ;;
          items ← lift (iteritems data);
          for_each items (λ '(field_name, type_token),
            strategy ← lift (_default type_token);
            modify (set_field msg_type
                      (FieldStrategy_init field_name (Some strategy)))))
  end.

(** ** test_generator.py *)

(** Modelled from the spec: the objects of the HPL front end that reach
    the two compilers (literals, field expressions, sets, ranges, the
    conditions and the message filters); the front end is not among the
    sources, and each class is the record of the attributes the two
    compilers read.  The loop frames of a field-access path, which the
    front end computes in [get_loops()], are the attribute [get_loops]:
    one list of fields per quantified segment, outer to inner, the last
    field of each being the quantified one.

    The module receives these objects as arguments.  It does not import
    their classes: see [module_globals] below. *)
Inductive Index : Type :=
  | NoIndex                     (* [None] *)
  | IntIndex (i : Z)            (* a concrete index *)
  | Quantifier (op : string).   (* the aggregation of a loop *)

Module HplField.
Record t : Type := mk {
  name : string;
  token : string;
  is_loop : bool;
  index : Index;
  msg_type : string
}.
End HplField.

Module HplFieldExpression.
Record t : Type := mk {
  variable : string;
  fields : list HplField.t;
  get_loops : list (list HplField.t);
  last_name : string;
  full_name : string
}.
End HplFieldExpression.

(** The objects that reach the operands of a condition: the values of
    the front end, and the [Reference] tuples and plain tuples the
    condition compiler builds from them. *)
Inductive Value : Type :=
  | HplLiteral (value : Py.value)
  | HplFieldExpression2 (expr : HplFieldExpression.t)
  | HplSet (values : list Value)
  | HplRange (lower_bound upper_bound : Value)
             (exclude_lower exclude_upper : bool)
  | Reference (expr : HplFieldExpression.t) (root : string)
  | Tuple (items : list Value).

Module HplCondition.
Record t : Type := mk {
  field : HplFieldExpression.t;
  is_equality_test : bool;
  is_comparison_test : bool;
  is_inclusion_test : bool;
  operator : string;
  value : Value
}.
End HplCondition.

Module HplMsgFilter.
Record t : Type := mk {
  field_conditions : list HplCondition.t
}.
End HplMsgFilter.

(** *** The global names of the module

    [test_generator.py] imports [namedtuple] and [StrategyMap], and
    defines four templates and the two compilers.  A name that is
    neither local nor among these nor a built-in raises NameError when
    it is evaluated; that is the case of [HplLiteral],
    [HplFieldExpression2], [HplSet] and [HplRange], which the methods
    of [ConditionTransformer] name in their [isinstance] tests. *)
Definition module_globals : list string :=
  [ "namedtuple"; "StrategyMap"; "SPIN_TEMPLATE"; "INITIALIZE_TEMPLATE";
    "PUBLISH_IRRELEVANT_TEMPLATE"; "PUBLISH_RELEVANT_TEMPLATE";
    "ConditionTransformer"; "StrategyTransformer" ].

(** The evaluation of a global name. *)
Definition global (name : string) : result unit :=
  if bool_decide (name ∈ module_globals) then Ok tt else Raise NameError.

(** *** [ConditionTransformer] *)

Module Loop.
Record t : Type := mk {
  fields : list HplField.t;
  variable : string;
  alias : string
}.

(** The [name] property. *)
Definition name (self : t) : string :=
  variable self +:+ "."
  +:+ join "." (map (λ f, if HplField.is_loop f then HplField.name f
                          else HplField.token f) (fields self)).

(** The [operator] property: the index of the last field, which must
    be neither [None] nor an [int]. *)
Definition operator (self : t) : result string :=
  match last (fields self) with
  | None => Raise IndexError
  | Some f =>
      match HplField.index f with
      | Quantifier op => Ok op
      | _ => Raise AssertionError
      end
  end.
End Loop.

Module ConditionTransformer.

Record t : Type := mk {
  loops : list Loop.t;
  left_operand : option Value;
  right_operands : list (string * Value);
  _var : nat;
  _var_prefix : string
}.

(** [ConditionTransformer()] *)
Definition init : t := mk [] None [] 0 "self._user_".

Definition _reset : M t unit :=
  modify (λ self, mk [] None [] 0 (_var_prefix self)).

Definition _new_var : M t string :=
  λ self,
    let var_name := "x" +:+ pretty (_var self) in
    (mk (loops self) (left_operand self) (right_operands self)
        (S (_var self)) (_var_prefix self),
     Ok var_name).

(** [self.loops.append(loop)] *)
Definition append_loop (loop : Loop.t) : M t unit :=
  modify (λ self,
    mk (loops self ++ [loop]) (left_operand self) (right_operands self)
       (_var self) (_var_prefix self)).

(** [self.right_operands.append((op, value))] *)
Definition append_right_operand (op : string) (value : Value) : M t unit :=
  modify (λ self,
    mk (loops self) (left_operand self) (right_operands self ++ [(op, value)])
       (_var self) (_var_prefix self)).

(** The [for] loop of [_field_expression], returning the last [root]. *)
Fixpoint _field_expression_loop (root : string)
    (get_loops : list (list HplField.t)) : M t string :=
  match get_loops with
  | [] => mret root
  | fields :: rest =>
      alias ← _new_var;
      append_loop (Loop.mk fields root alias) ;;
      _field_expression_loop alias rest
  end.

Definition _field_expression (expr : HplFieldExpression.t) : M t Value :=
  self ← get;
  root ← _field_expression_loop
            (_var_prefix self +:+ HplFieldExpression.variable expr)
            (HplFieldExpression.get_loops expr);
  mret (Reference expr root).

Definition _set_literal (hpl_enum : list Value) : Value := Tuple hpl_enum.

Definition _range_literal (lower_bound upper_bound : Value)
  : Value * Value :=
  (lower_bound, upper_bound).

(** [_equality_test]; the first [isinstance] evaluates the name
    [HplLiteral] after [condition.value]. *)
Definition _equality_test (condition : HplCondition.t) : M t unit :=
  let op := if String.eqb (HplCondition.operator condition) "=" then "=="
            else HplCondition.operator condition in
  lift (global "HplLiteral") ;;
  value ←
    match HplCondition.value condition with
    | HplLiteral v => mret (HplLiteral v)
    | other =>
        lift (global "HplFieldExpression2") ;;
        match other with
        | HplFieldExpression2 e => _field_expression e
        | _ => lift (Raise AssertionError)
        end
    end;
  append_right_operand op value.

Definition _comparison_test (condition : HplCondition.t) : M t unit :=
  lift (global "HplLiteral") ;;
  value ←
    match HplCondition.value condition with
    | HplLiteral v => mret (HplLiteral v)
    | other =>
        lift (global "HplFieldExpression2") ;;
        match other with
        | HplFieldExpression2 e => _field_expression e
        | _ => lift (Raise AssertionError)
        end
    end;
  append_right_operand (HplCondition.operator condition) value.

Definition _inclusion_test (condition : HplCondition.t) : M t unit :=
  lift (global "HplSet") ;;
  match HplCondition.value condition with
  | HplSet values =>
      append_right_operand (HplCondition.operator condition)
                           (_set_literal values)
  | other =>
      lift (global "HplRange") ;;
      match other with
      | HplRange lower_bound upper_bound exclude_lower exclude_upper =>
          let '(lo, hi) := _range_literal lower_bound upper_bound in
          append_right_operand (if exclude_lower then ">" else ">=") lo ;;
          append_right_operand (if exclude_upper then "<" else "<=") hi
      | _ => lift (Raise AssertionError)
      end
  end.

Definition set_left_operand (v : Value) : M t unit :=
  modify (λ self,
    mk (loops self) (Some v) (right_operands self)
       (_var self) (_var_prefix self)).

Definition _process (condition : HplCondition.t) : M t unit :=
  left ← _field_expression (HplCondition.field condition);
  set_left_operand left ;;
  if HplCondition.is_equality_test condition then
    _equality_test condition
  else if HplCondition.is_comparison_test condition then
    _comparison_test condition
  else
    lift (assert (HplCondition.is_inclusion_test condition)) ;;
    _inclusion_test condition.

(** [_python]; the order of the type tests is that of the source. *)
Fixpoint _python (_var_prefix : string) (value : Value) : result string :=
  match value with
  | Reference expr root =>
      let name := HplFieldExpression.last_name expr in
      Ok (if String.eqb name "" then root else root +:+ "." +:+ name)
  | other =>
      _ ← global "HplLiteral";
      match other with
      | HplLiteral v => Ok (repr v)
      | Tuple items =>
          parts ← (fix go (vs : list Value) : result (list string) :=
                     match vs with
                     | [] => Ok []
                     | v :: vs' =>
                         p ← _python _var_prefix v;
                         ps ← go vs';
                         Ok (p :: ps)
                     end) items;
          format "({})" [join ", " parts]
      | HplFieldExpression2 expr =>
          _ ← global "HplFieldExpression2";
          Ok (_var_prefix +:+ HplFieldExpression.full_name expr)
      | _ =>
          _ ← global "HplFieldExpression2";
          Raise AssertionError
      end
  end.

(** [isinstance(value, right_types)] for the tuple [right_types] of
    [HplLiteral], [self.Reference] and [tuple]. *)
Definition isinstance_right_types (value : Value) : bool :=
  match value with
  | HplLiteral _ | Reference _ _ | Tuple _ => true
  | _ => false
  end.

(** [isinstance(self.left_operand, self.Reference)] *)
Definition isinstance_Reference (value : option Value) : bool :=
  match value with
  | Some (Reference _ _) => true
  | _ => false
  end.

(** The first loop of [gen]: the aggregations around the hole. *)
Definition gen_loops (loops : list Loop.t) : result string :=
  foldM (λ expr loop,
           op ← Loop.operator loop;
           agg ← format "{}({{}} for {} in {})"
                        [op; Loop.alias loop; Loop.name loop];
           format expr [agg])
        "{}" loops.

(** The joined comparisons of [gen]. *)
Definition gen_inner (_var_prefix : string) (left_operand : Value)
    (right_operands : list (string * Value)) : result string :=
  left ← _python _var_prefix left_operand;
  parts ← mapM (λ '(op, value),
                  v ← _python _var_prefix value;
                  format "{} {} {}" [left; op; v])
               right_operands;
  Ok (join " and " parts).

(** [gen]; the tuple [right_types] is built from the name
    [HplLiteral]. *)
Definition gen (condition : HplCondition.t) : M t string :=
  _reset ;;
  _process condition ;;
  self ← get;
  expr ← lift (gen_loops (loops self));
  lift (assert (isinstance_Reference (left_operand self))) ;;
  lift (global "HplLiteral") ;;
  lift (foldM (λ _ '(op, value), assert (isinstance_right_types value))
              tt (right_operands self)) ;;
  inner ← lift (match left_operand self with
                | Some lhs =>
                    gen_inner (_var_prefix self) lhs (right_operands self)
                | None => Raise AssertionError
                end);
  expr ← lift (format expr [inner]);
  mret ("assert " +:+ expr).

End ConditionTransformer.

(** *** [StrategyTransformer] *)

Module StrategyTransformer.

(** What the attribute [strategies] holds: the [StrategyMap] of
    [__init__], or the plain [dict] of [_reset]. *)
Inductive strategies_attr : Type :=
  | IsStrategyMap (sm : StrategyMap)
  | IsDict (d : gmap string MsgStrategy).

Record t : Type := mk {
  _var_prefix : string;
  target_msg_type : option string;
  target_field : option string;
  target_type : option string;
  strategies : strategies_attr;
  assumptions : list string
}.

(** [StrategyTransformer()] *)
Definition init : t :=
  mk "msg." None None None (IsStrategyMap StrategyMap_init) [].

Definition _reset : M t unit :=
  modify (λ self, mk (_var_prefix self) None None None (IsDict ∅) []).

(** [self.strategies.make_custom(msg_type)]: a [dict] has no such
    attribute. *)
Definition strategies_make_custom (msg_type : string) : M t MsgStrategy :=
  λ self,
    match strategies self with
    | IsDict _ => (self, Raise AttributeError)
    | IsStrategyMap sm =>
        let '(sm', r) := make_custom sm msg_type in
        (mk (_var_prefix self) (target_msg_type self) (target_field self)
            (target_type self) (IsStrategyMap sm') (assumptions self), r)
    end.

(** [_process_left_field], up to the statement it cannot get past:
    after [make_custom], the name [FieldStrategy] is looked up in the
    globals of the module, which imports [StrategyMap] only. *)
Definition _process_left_field (expr : HplFieldExpression.t) : M t unit :=
  match last (HplFieldExpression.fields expr) with
  | None => lift (Raise IndexError)
  | Some field =>
      msg_strat ← strategies_make_custom (HplField.msg_type field);
      lift (Raise NameError)
  end.

Section front_end.

(** [msg_filter.normalise()] belongs to the front end, and [repr] of
    the catalog shows object addresses; both are arguments. *)
Variable normalise : HplMsgFilter.t → HplMsgFilter.t.
Variable repr_strategies : strategies_attr → string.

Definition _process (msg_filter : HplMsgFilter.t) : M t unit :=
  let msg_filter := normalise msg_filter in
  (* [for condition in msg_filter.field_conditions: pass] leaves the
     last condition bound, or none *)
  match last (HplMsgFilter.field_conditions msg_filter) with
  | None => lift (Raise UnboundLocalError)
  | Some condition => _process_left_field (HplCondition.field condition)
  end.

Definition gen (condition : HplMsgFilter.t) : M t string :=
  _reset ;;
  _process condition ;;
  self ← get;
  mret (repr_strategies (strategies self)).

End front_end.

End StrategyTransformer.

(** ** Notions the statements below are phrased with *)

(** *** The catalog *)

(** The custom variants of a message type, in creation order. *)
Definition custom_list (self : StrategyMap) (msg_type : string)
  : list MsgStrategy :=
  default [] (custom self !! msg_type).

(** The disambiguated name [<type>_v<n>]. *)
Definition custom_name (msg_type : string) (n : nat) : string :=
  replace "/" "_" msg_type +:+ "_v" +:+ pretty n.

(** The name of the default composite [MsgStrategy(msg_type)]. *)
Definition default_name (msg_type : string) : string :=
  _name (MsgStrategy_init msg_type None).

(** A sequence of [make_custom] calls, one per listed message type. *)
Definition run_make_custom (calls : list string) (self : StrategyMap)
  : StrategyMap :=
  foldl (λ sm msg_type, (make_custom sm msg_type).1) self calls.

(** The registered built-in of a type name, if any. *)
Definition builtin (ros_type : string) : option TopLevelStrategy :=
  defaults StrategyMap_init !! ros_type.

(** The name under which the default of a scalar type is referred to:
    that of the registered built-in, and for a message type that of
    its default composite. *)
Definition referred_name (ros_type : string) : string :=
  match builtin ros_type with
  | Some s => name s
  | None => default_name ros_type
  end.

(** The resolution of a type token as the catalog is specified: raw
    binary for an array of [uint8], an array strategy around the
    default of the element for another array, and a reference by name
    for a scalar. *)
Definition resolveDefault (type_token : TypeToken.t) : Strategy :=
  let ros_type := TypeToken.ros_type type_token in
  if TypeToken.is_array type_token then
    if bool_decide (ros_type = "uint8")
    then ByteArrays (TypeToken.length type_token)
    else Arrays (Reuse (referred_name ros_type)) (TypeToken.length type_token)
  else Reuse (referred_name ros_type).

(** A type name the catalog knows: a registered built-in, or the
    [pkg/Msg] name of a message type. *)
Definition known_type (ros_type : string) : Prop :=
  is_Some (builtin ros_type) ∨ contains "/" ros_type = true.

(** A [dict] whose values are all [dict]s. *)
Definition dict_of_dicts {A : Type} (msg_data : dict_arg (dict_arg A))
  : Prop :=
  ∃ d, msg_data = Dict d ∧ ∀ k v, d !! k = Some v → ∃ d', v = Dict d'.

(** The indices that [IDX] can draw for an array of [n] elements:
    [integers] draws between [min_value=0] and [max_value=len(...)],
    both included, as the built-in strategies take it whose
    [max_value] is the largest value of the type. *)
Definition IDX_draws (n i : Z) : Prop := 0 ≤ i ≤ n.

(** The valid indices of an array of [n] elements. *)
Definition valid_index (n i : Z) : Prop := 0 ≤ i < n.

(** *** The condition compiler *)

(** The synthetic alias [x<k>]. *)
Definition alias_of (k : nat) : string := "x" +:+ pretty k.

(** The loop frames a path records, outer to inner: the first binds
    the alias [x<k>] to a source under [root], and each later one binds
    the next alias to a source under the alias before. *)
Fixpoint path_frames (root : string) (k : nat)
    (segments : list (list HplField.t)) : list Loop.t :=
  match segments with
  | [] => []
  | fields :: rest =>
      Loop.mk fields root (alias_of k)
      :: path_frames (alias_of k) (S k) rest
  end.

(** The root a path is referred to by: the innermost alias, or the
    variable when the path has no loop. *)
Fixpoint path_root (root : string) (k : nat)
    (segments : list (list HplField.t)) : string :=
  match segments with
  | [] => root
  | _ :: rest => path_root (alias_of k) (S k) rest
  end.

(** The frames of the path on the left of a condition. *)
Definition left_frames (prefix : string) (c : HplCondition.t)
  : list Loop.t :=
  let e := HplCondition.field c in
  path_frames (prefix +:+ HplFieldExpression.variable e) 0
              (HplFieldExpression.get_loops e).

(** The reference to the path on the left of a condition. *)
Definition left_reference (prefix : string) (c : HplCondition.t) : Value :=
  let e := HplCondition.field c in
  Reference e (path_root (prefix +:+ HplFieldExpression.variable e) 0
                         (HplFieldExpression.get_loops e)).

(** The condition is an equality test, a comparison test or an
    inclusion test. *)
Definition has_kind (c : HplCondition.t) : bool :=
  HplCondition.is_equality_test c || HplCondition.is_comparison_test c
  || HplCondition.is_inclusion_test c.

(** The transformers a program can hold: a new one, or one that has
    compiled conditions. *)
Inductive reachable : ConditionTransformer.t → Prop :=
  | reachable_init : reachable ConditionTransformer.init
  | reachable_gen self c :
      reachable self → reachable (ConditionTransformer.gen c self).1.

(** *** The invariant of the custom lists *)

(** The strategy [make_custom] makes for the [n]-th variant of a type. *)
Definition variant (t : string) (n : nat) : MsgStrategy :=
  MsgStrategy_init t (Some (custom_name t n)).

(** The custom list of every type holds the variants 1, 2, ... of that
    type, in this order. *)
Definition custom_inv (self : StrategyMap) : Prop :=
  ∀ t, custom_list self t
       = map (variant t) (seq 1 (List.length (custom_list self t))).

(** *** Inputs of the examples *)

(** A schema that refers to a message type it does not declare. *)
Definition incomplete_schema : dict_arg (dict_arg TypeToken.t) :=
  Dict {[ "pkg/Msg" := Dict {[ "child" := TypeToken "pkg/Missing" ]} ]}.

(** The path [m.a[any].b[any].c]. *)
Definition nested_any_path : HplFieldExpression.t :=
  let a := HplField.mk "a" "a" true (Quantifier "any") "pkg/Msg" in
  let b := HplField.mk "b" "b" true (Quantifier "any") "pkg/Inner" in
  let c := HplField.mk "c" "c" false NoIndex "pkg/Leaf" in
  HplFieldExpression.mk "m" [a; b; c] [[a]; [b]] "c" "a.b.c".

(** The condition [m.a[any].b[any].c = 5]. *)
Definition nested_any_eq_5 : HplCondition.t :=
  HplCondition.mk nested_any_path true false false "="
                  (HplLiteral (PyInt 5)).

(** The path [m.level], for a message [pkg/Msg] with the one field
    [level] of type [uint8]. *)
Definition level_path : HplFieldExpression.t :=
  HplFieldExpression.mk "m"
    [HplField.mk "level" "level" false NoIndex "pkg/Msg"] [] "level" "level".

(** The condition [level = 5]. *)
Definition level_eq_5 : HplCondition.t :=
  HplCondition.mk level_path true false false "=" (HplLiteral (PyInt 5)).

(** A condition over [level] that is of none of the three kinds. *)
Definition level_no_kind : HplCondition.t :=
  HplCondition.mk level_path false false false "=" (HplLiteral (PyInt 5)).

(** The message filter that holds the one condition [level = 5]. *)
Definition level_eq_5_filter : HplMsgFilter.t :=
  HplMsgFilter.mk [level_eq_5].

(** The condition [level in (0, 10]]: lower bound excluded, upper bound
    included. *)
Definition level_in_0_10 : HplCondition.t :=
  HplCondition.mk level_path false false true "in"
    (HplRange (HplLiteral (PyInt 0)) (HplLiteral (PyInt 10)) true false).

(** * Rendering, and the methods around the catalog *)

(** ** hypothesis_strategies.py: [Reuse.from_strategy], [Integers] and the
    [to_python] methods *)

(** [Reuse.from_strategy]; its argument is a top-level strategy, or an
    object of another class, such as a strategy of a field. *)
Definition Reuse_from_strategy (strategy : TopLevelStrategy + Strategy)
  : result Strategy :=
  match strategy with
  | inl s => Ok (Reuse (name s))
  | inr _ => Raise TypeError
  end.

(** The class methods [Integers.int8()] to [Integers.uint64()], by the
    name of the method. *)
Definition Integers_classmethods : list (string * Strategy) :=
  [ ("int8", Integers (Some INT8_MIN_VALUE) (Some INT8_MAX_VALUE));
    ("uint8", Integers (Some 0) (Some UINT8_MAX_VALUE));
    ("int16", Integers (Some INT16_MIN_VALUE) (Some INT16_MAX_VALUE));
    ("uint16", Integers (Some 0) (Some UINT16_MAX_VALUE));
    ("int32", Integers (Some INT32_MIN_VALUE) (Some INT32_MAX_VALUE));
    ("uint32", Integers (Some 0) (Some UINT32_MAX_VALUE));
    ("int64", Integers (Some INT64_MIN_VALUE) (Some INT64_MAX_VALUE));
    ("uint64", Integers (Some 0) (Some UINT64_MAX_VALUE)) ].

(** [s.split(sep)] for a one-character [sep]. *)
Fixpoint split (sep : ascii) (s : string) : list string :=
  match s with
  | EmptyString => [EmptyString]
  | String c s' =>
      if Ascii.eqb c sep then EmptyString :: split sep s'
      else match split sep s' with
           | part :: parts => String c part :: parts
           | [] => [String c EmptyString]
           end
  end.

(** The line feed of the templates. *)
Definition NL (rest : string) : string := String "010" rest.

(** [FieldStrategy.to_python] *)
Definition FieldStrategy_to_python (self : FieldStrategy)
    (var_name module : string) (indent tab_size : nat) : result string :=
  match strategy self with
  | None => Raise AssertionError
  | Some s =>
      strategy ← Strategy_to_python s module;
      let line := spaces indent +:+ var_name +:+ "." +:+ field_name self
                  +:+ " = draw(" +:+ strategy +:+ ")" in
      lines ← mapM (λ m, Modifier_to_python m (field_name self) var_name
                            module indent tab_size)
                   (modifiers self);
      Ok (join (NL "") (line :: lines))
  end.

(** [MsgStrategy.to_python].  The fields are rendered in the order in
    which the dict of the fields yields its values, which is the order
    of [map_to_list] here; no statement below depends on that order
    beyond its being one order of the values. *)
Definition MsgStrategy_to_python (self : MsgStrategy)
    (var_name module : string) (indent tab_size : nat) : result string :=
  _ ← assert (contains "/" (msg_type self));
  '(pkg, msg) ← match split "/" (msg_type self) with
                | [pkg; msg] => Ok (pkg, msg)
                | _ => Raise ValueError
                end;
  let ws := spaces indent in
  let mws := spaces tab_size in
  lines ← mapM (λ f, FieldStrategy_to_python f var_name module
                        (indent + tab_size) tab_size)
               (map_to_list (fields self)).*2;
  let body := join (NL "") lines in
  Ok (ws +:+ "@" +:+ module +:+ ".composite" +:+ NL (
      ws +:+ "def " +:+ _name self +:+ "(draw):" +:+ NL (
      ws +:+ mws +:+ var_name +:+ " = " +:+ pkg +:+ "." +:+ msg +:+ "()"
      +:+ NL (
      body +:+ NL (
      ws +:+ mws +:+ "return " +:+ var_name))))).

(** [RosBoolStrategy.to_python] *)
Definition RosBoolStrategy_to_python (module : string)
    (indent tab_size : nat) : string :=
  let ws := spaces indent in
  let mws := spaces tab_size in
  ws +:+ "def ros_bool():" +:+ NL (
  ws +:+ mws +:+ "return " +:+ module +:+ ".booleans()").

(** [RosStringStrategy.to_python] *)
Definition RosStringStrategy_to_python (module : string)
    (indent tab_size : nat) : string :=
  let ws := spaces indent in
  let mws := spaces tab_size in
  ws +:+ "def ros_string():" +:+ NL (
  ws +:+ mws +:+ "return " +:+ module +:+ ".binary("
  +:+ "min_size=0, max_size=256)").

(** [RosTimeStrategy.to_python] *)
Definition RosTimeStrategy_to_python (module : string)
    (indent tab_size : nat) : string :=
  let ws := spaces indent in
  let mws := spaces tab_size in
  ws +:+ "@" +:+ module +:+ ".composite" +:+ NL (
  ws +:+ "def ros_time(draw):" +:+ NL (
  ws +:+ mws +:+ "secs = draw(" +:+ module +:+ ".integers("
  +:+ "min_value=0, max_value=4294967295))" +:+ NL (
  ws +:+ mws +:+ "nsecs = draw(" +:+ module +:+ ".integers("
  +:+ "min_value=0, max_value=4294967295))" +:+ NL (
  ws +:+ mws +:+ "return rospy.Time(secs, nsecs)")))).

(** [RosDurationStrategy.to_python] *)
Definition RosDurationStrategy_to_python (module : string)
    (indent tab_size : nat) : string :=
  let ws := spaces indent in
  let mws := spaces tab_size in
  ws +:+ "@" +:+ module +:+ ".composite" +:+ NL (
  ws +:+ "def ros_duration(draw):" +:+ NL (
  ws +:+ mws +:+ "secs = draw(" +:+ module +:+ ".integers("
  +:+ "min_value=-2147483648, max_value=2147483647))" +:+ NL (
  ws +:+ mws +:+ "nsecs = draw(" +:+ module +:+ ".integers("
  +:+ "min_value=-2147483648, max_value=2147483647))" +:+ NL (
  ws +:+ mws +:+ "return rospy.Duration(secs, nsecs)")))).

(** [HeaderStrategy.to_python] *)
Definition HeaderStrategy_to_python (module : string)
    (indent tab_size : nat) : string :=
  let ws := spaces indent in
  let mws := spaces tab_size in
  ws +:+ "@" +:+ module +:+ ".composite" +:+ NL (
  ws +:+ "def std_msgs_Header(draw):" +:+ NL (
  ws +:+ mws +:+ "msg = std_msgs.Header()" +:+ NL (
  ws +:+ mws +:+ "msg.stamp = draw(ros_time())" +:+ NL (
  ws +:+ mws +:+ "msg.frame_id = draw(ros_string())" +:+ NL (
  ws +:+ mws +:+ "return msg"))))).

Section float_constants.

(** The texts that [format] shows for [FLOAT32_MIN_VALUE] and the
    other float constants of [ros_types]; they are arguments. *)
Variable FLOAT32_MIN_VALUE FLOAT32_MAX_VALUE : string.
Variable FLOAT64_MIN_VALUE FLOAT64_MAX_VALUE : string.

(** [RosFloatStrategy.TYPES], with the bounds as texts. *)
Definition RosFloatStrategy_TYPES_table
  : list (string * (string * string * Z)) :=
  [ ("float32", (FLOAT32_MIN_VALUE, FLOAT32_MAX_VALUE, 32));
    ("float64", (FLOAT64_MIN_VALUE, FLOAT64_MAX_VALUE, 64)) ].

(** [RosFloatStrategy.to_python] *)
Definition RosFloatStrategy_to_python (ros_type module : string)
    (indent tab_size : nat) : result string :=
  let ws := spaces indent in
  let mws := spaces tab_size in
  '(minv, maxv, width) ← lookup_type ros_type RosFloatStrategy_TYPES_table;
  Ok (ws +:+ "def ros_" +:+ ros_type +:+ "(min_value=" +:+ minv
      +:+ ", max_value=" +:+ maxv +:+ "):" +:+ NL (
      ws +:+ mws +:+ "if min_value <= " +:+ minv
      +:+ " or min_value >= " +:+ maxv
      +:+ " or max_value <= " +:+ minv
      +:+ " or max_value >= " +:+ maxv
      +:+ " or min_value > max_value:" +:+ NL (
      ws +:+ mws +:+ mws
      +:+ "raise ValueError('values out of bounds: {}, {}'"
      +:+ ".format(min_value, max_value))" +:+ NL (
      ws +:+ mws +:+ "return " +:+ module +:+ ".floats("
      +:+ "min_value=max(min_value, " +:+ minv +:+ "), "
      +:+ "max_value=min(max_value, " +:+ maxv +:+ "), "
      +:+ "width=" +:+ pretty width +:+ ")")))).

(** The [to_python] method of a top-level strategy, by its class. *)
Definition TopLevelStrategy_to_python (s : TopLevelStrategy)
    (var_name module : string) (indent tab_size : nat) : result string :=
  match s with
  | RosBoolStrategy => Ok (RosBoolStrategy_to_python module indent tab_size)
  | RosIntStrategy ros_type =>
      RosIntStrategy_to_python ros_type module indent tab_size
  | RosFloatStrategy ros_type =>
      RosFloatStrategy_to_python ros_type module indent tab_size
  | RosStringStrategy =>
      Ok (RosStringStrategy_to_python module indent tab_size)
  | RosTimeStrategy => Ok (RosTimeStrategy_to_python module indent tab_size)
  | RosDurationStrategy =>
      Ok (RosDurationStrategy_to_python module indent tab_size)
  | HeaderStrategy => Ok (HeaderStrategy_to_python module indent tab_size)
  | Msg m => MsgStrategy_to_python m var_name module indent tab_size
  end.

End float_constants.

(** ** Notions of the further statements *)

(** *** The defaults of a schema *)

(** The field that [make_defaults] makes for a declared field. *)
Definition default_field (field_name : string) (type_token : TypeToken.t)
  : FieldStrategy :=
  mkFieldStrategy field_name
    match _default type_token with
    | Ok s => Some s
    | Raise _ => None
    end [].

(** The default composite of a message type with the declared fields. *)
Definition default_composite (msg_type : string)
    (data : gmap string TypeToken.t) : MsgStrategy :=
  mkMsgStrategy msg_type
    (map_imap (λ field_name type_token,
                 Some (default_field field_name type_token)) data)
    (replace "/" "_" msg_type).

(** A schema as the argument of [make_defaults]: a dict of dicts. *)
Definition msg_data_of (schema : gmap string (gmap string TypeToken.t))
  : dict_arg (dict_arg TypeToken.t) :=
  Dict (Dict <$> schema).

(** The entries of the defaults for a schema. *)
Definition default_entries (schema : gmap string (gmap string TypeToken.t))
  : gmap string TopLevelStrategy :=
  map_imap (λ msg_type data, Some (Msg (default_composite msg_type data)))
           schema.

(** The name a field strategy refers to, if it refers to one. *)
Fixpoint reference_of (s : Strategy) : option string :=
  match s with
  | Reuse strategy_name => Some strategy_name
  | Arrays base_strategy _ => reference_of base_strategy
  | _ => None
  end.

(** The message types of a schema have names with a slash, as in
    [pkg/Msg]. *)
Definition slash_names (schema : gmap string (gmap string TypeToken.t))
  : bool :=
  forallb (λ '(msg_type, _), contains "/" msg_type) (map_to_list schema).

(** A schema that declares every type its fields use: the type of each
    field is a registered built-in or a message type of the schema. *)
Definition closed_schema (schema : gmap string (gmap string TypeToken.t))
  : bool :=
  slash_names schema
  && forallb (λ '(_, data),
                forallb (λ '(_, type_token),
                           let ros_type := TypeToken.ros_type type_token in
                           bool_decide (is_Some (builtin ros_type))
                           || bool_decide (is_Some (schema !! ros_type)))
                        (map_to_list data))
             (map_to_list schema).

(** A schema of two message types, one of which uses the other. *)
Definition two_level_schema : gmap string (gmap string TypeToken.t) :=
  {[ "pkg/Msg" := {[ "level" := TypeToken "uint8";
                     "children" := ArrayTypeToken "pkg/Inner" None;
                     "header" := TypeToken "std_msgs/Header" ]};
     "pkg/Inner" := {[ "x" := TypeToken "float64";
                       "raw" := ArrayTypeToken "uint8" (Some 4) ]} ]}.

(** *** Rendering *)

(** Every fixed length in a strategy is at least 0. *)
Fixpoint lengths_ok (s : Strategy) : bool :=
  match s with
  | Arrays base_strategy length =>
      match length with
      | Some n => (n >=? 0) && lengths_ok base_strategy
      | None => lengths_ok base_strategy
      end
  | ByteArrays (Some n) => n >=? 0
  | _ => true
  end.

(** The array of a token has no negative length. *)
Definition token_ok (type_token : TypeToken.t) : bool :=
  negb (TypeToken.is_array type_token)
  || match TypeToken.length type_token with
     | Some n => n >=? 0
     | None => true
     end.

(** The number of occurrences of a character. *)
Fixpoint count_char (c : ascii) (s : string) : nat :=
  match s with
  | EmptyString => 0
  | String d s' => (if Ascii.eqb d c then 1 else 0) + count_char c s'
  end.

(** A schema whose composites can be rendered: each message type has
    a name of the form [pkg/Msg], with one slash, and no array has a
    negative length. *)
Definition renderable_schema (schema : gmap string (gmap string TypeToken.t))
  : bool :=
  forallb (λ '(msg_type, data),
             Nat.eqb (count_char "/" msg_type) 1
             && forallb (λ '(_, type_token), token_ok type_token)
                        (map_to_list data))
          (map_to_list schema).

(** [needle] occurs in [text]. *)
Definition occurs (needle text : string) : Prop :=
  ∃ pre post, text = pre +:+ needle +:+ post.

(** *** Modifiers *)

(** The innermost modifier, under the index modifiers. *)
Fixpoint base_modifier (m : Modifier) : Modifier :=
  match m with
  | FixedIndexModifier _ modifier => base_modifier modifier
  | RandomIndexModifier modifier => base_modifier modifier
  | _ => m
  end.

(** The element that the innermost modifier addresses. *)
Fixpoint target (m : Modifier) (field_name : string) : string :=
  match m with
  | FixedIndexModifier index modifier =>
      target modifier (field_name +:+ "[" +:+ pretty index +:+ "]")
  | RandomIndexModifier modifier => target modifier (field_name +:+ "[i]")
  | _ => field_name
  end.

(** The lines that draw the random indices, outer to inner. *)
Fixpoint index_draws (m : Modifier) (indent module var_name field_name : string)
  : list string :=
  match m with
  | FixedIndexModifier index modifier =>
      index_draws modifier indent module var_name
                  (field_name +:+ "[" +:+ pretty index +:+ "]")
  | RandomIndexModifier modifier =>
      RandomIndexModifier_IDX indent module var_name field_name
      :: index_draws modifier indent module var_name (field_name +:+ "[i]")
  | _ => []
  end.

(** *** The condition compiler *)

(** The aliases of the loops are [x0], [x1], ... in the order of the
    loops, up to the counter of the next alias. *)
Definition numbered (self : ConditionTransformer.t) : Prop :=
  map Loop.alias (ConditionTransformer.loops self)
  = map alias_of (seq 0 (ConditionTransformer._var self)).

(** A method that keeps a property of the transformer, whether it
    returns or raises. *)
Definition preserves {A : Type} (P : ConditionTransformer.t → Prop)
    (m : M ConditionTransformer.t A) : Prop :=
  ∀ self, P self → P (m self).1.

(** *** Fields that can be rendered *)

(** The strategy of the innermost modifier, if it has one, has no
    negative length. *)
Definition modifier_ok (m : Modifier) : bool :=
  match base_modifier m with
  | StrategyModifier s => lengths_ok s
  | _ => true
  end.

(** The field has a strategy, and neither it nor a strategy of a
    modifier has a negative length. *)
Definition field_ok (f : FieldStrategy) : bool :=
  match strategy f with
  | Some s => lengths_ok s && forallb modifier_ok (modifiers f)
  | None => false
  end.

(** * Proofs *)

(** ** Strings *)

Lemma str_app_nil_r (s : string) : s +:+ "" = s.
Proof.
  induction s as [|c s IH]; [done|].
  unfold String.app in *; simpl. by rewrite IH.
Qed.

Lemma str_app_assoc (a b c : string) : (a +:+ b) +:+ c = a +:+ b +:+ c.
Proof.
  induction a as [|x a IH]; [done|].
  unfold String.app in *; simpl. by rewrite IH.
Qed.

Lemma str_app_cons (x : ascii) (a b : string) :
  String x a +:+ b = String x (a +:+ b).
Proof. done. Qed.

Lemma str_app_length (a b : string) :
  String.length (a +:+ b) = (String.length a + String.length b)%nat.
Proof.
  induction a as [|x a IH]; [done|].
  rewrite str_app_cons. simpl. by rewrite IH.
Qed.

Lemma format_v (a b : string) :
  format "{}_v{}" [a; b] = Ok (a +:+ "_v" +:+ b).
Proof. cbv [format]. simpl. by rewrite str_app_nil_r. Qed.

(** ** The catalog *)

(** ** make_custom *)

Lemma custom_name_nonempty (t : string) (n : nat) :
  String.eqb (custom_name t n) "" = false.
Proof.
  unfold custom_name. destruct (replace "/" "_" t); reflexivity.
Qed.

Lemma custom_name_inj (t : string) : Inj (=) (=) (custom_name t).
Proof.
  intros n m H. unfold custom_name in H.
  apply String.app_inj in H. apply (String.app_inj "_v") in H.
  by apply pretty_nat_inj in H.
Qed.

Lemma custom_name_ne_default (t : string) (n : nat) :
  custom_name t n ≠ default_name t.
Proof.
  unfold custom_name, default_name. simpl. intros H.
  apply (f_equal String.length) in H. rewrite str_app_length in H.
  simpl in H. lia.
Qed.

Lemma variant_name (t : string) (n : nat) : _name (variant t n) = custom_name t n.
Proof. unfold variant. simpl. by rewrite custom_name_nonempty. Qed.

(** What one call does. *)
Lemma make_custom_eq (self : StrategyMap) (t : string) :
  make_custom self t =
    (mkStrategyMap (defaults self)
       (<[t := custom_list self t
               ++ [variant t (S (List.length (custom_list self t)))]]>
          (custom self)),
     Ok (variant t (S (List.length (custom_list self t))))).
Proof.
  unfold make_custom, custom_list.
  assert (match custom self !! t with Some (x :: l) => x :: l | _ => [] end
          = default [] (custom self !! t)) as ->.
  { by destruct (custom self !! t) as [[|]|]. }
  by rewrite format_v.
Qed.

Lemma custom_list_make_custom (self : StrategyMap) (t t' : string) :
  custom_list (make_custom self t).1 t' =
    if decide (t = t')
    then custom_list self t
           ++ [variant t (S (List.length (custom_list self t)))]
    else custom_list self t'.
Proof.
  rewrite make_custom_eq. unfold custom_list at 1. simpl.
  rewrite lookup_insert. by case_decide; subst.
Qed.

Lemma custom_inv_init : custom_inv StrategyMap_init.
Proof. intros t. reflexivity. Qed.

Lemma custom_inv_make_custom (self : StrategyMap) (t : string) :
  custom_inv self → custom_inv (make_custom self t).1.
Proof.
  intros Hinv t'. rewrite custom_list_make_custom.
  case_decide as Htt'; [subst t'|by apply Hinv].
  rewrite length_app. simpl. rewrite Nat.add_1_r, seq_S, map_app.
  simpl. by rewrite <- Hinv.
Qed.

Lemma run_make_custom_cons (t : string) (calls : list string)
    (self : StrategyMap) :
  run_make_custom (t :: calls) self
  = run_make_custom calls (make_custom self t).1.
Proof. reflexivity. Qed.

Lemma custom_inv_run (calls : list string) (self : StrategyMap) :
  custom_inv self → custom_inv (run_make_custom calls self).
Proof.
  revert self. induction calls as [|t calls IH]; intros self H; [done|].
  rewrite run_make_custom_cons. apply IH. by apply custom_inv_make_custom.
Qed.

Lemma defaults_run (calls : list string) (self : StrategyMap) :
  defaults (run_make_custom calls self) = defaults self.
Proof.
  revert self. induction calls as [|t calls IH]; intros self; [done|].
  rewrite run_make_custom_cons, IH. by rewrite make_custom_eq.
Qed.

Lemma names_of_variants (t : string) (n : nat) :
  map _name (map (variant t) (seq 1 n)) = map (custom_name t) (seq 1 n).
Proof.
  rewrite map_map. apply map_ext. intros. apply variant_name.
Qed.

(** The names of the built-ins are not names of custom variants. *)
Lemma builtin_name_ne_custom (t : string) (s : TopLevelStrategy) (n : nat) :
  builtin t = Some s → name s ≠ custom_name t n.
Proof.
  unfold builtin. intros H.
  assert (defaults StrategyMap_init =
          list_to_map (map_to_list (defaults StrategyMap_init))) as E
    by (by rewrite list_to_map_to_list).
  vm_compute map_to_list in E. rewrite E in H. clear E.
  apply elem_of_list_to_map_2 in H.
  repeat (apply elem_of_cons in H as [H|H];
          [injection H as -> ->; intros Hn;
           first [ apply (f_equal (String.get 0)) in Hn; vm_compute in Hn;
                   discriminate
                 | apply (f_equal (String.get 15)) in Hn; vm_compute in Hn;
                   discriminate ]|]).
  by apply elem_of_nil in H.
Qed.

Lemma custom_names (calls : list string) (t : string) :
  let self := run_make_custom calls StrategyMap_init in
  map _name (custom_list self t)
  = map (custom_name t) (seq 1 (List.length (custom_list self t))).
Proof.
  intros self. subst self.
  rewrite (custom_inv_run calls _ custom_inv_init t) at 1.
  apply names_of_variants.
Qed.

(** C5.  After any sequence of [make_custom] calls on a new catalog,
    one more call for a message type returns a strategy that was not in
    the custom list of that type and leaves that list extended by it at
    the end; the custom lists of the other types and the defaults are
    as before.  In every such catalog the names in the custom list of a
    type are [<type>_v1], [<type>_v2], ... in creation order (with the
    slash of the type name replaced by an underscore), they are
    pairwise distinct, and none is the name of the default composite of
    the type or of a default the catalog registers for it. *)
Theorem make_custom_appends_fresh_variant (calls : list string)
    (msg_type : string) :
  let self := run_make_custom calls StrategyMap_init in
  let self' := (make_custom self msg_type).1 in
  (∃ strategy,
      (make_custom self msg_type).2 = Ok strategy
      ∧ custom_list self' msg_type = custom_list self msg_type ++ [strategy]
      ∧ strategy ∉ custom_list self msg_type)
  ∧ (∀ t, t ≠ msg_type → custom_list self' t = custom_list self t)
  ∧ defaults self' = defaults self
  ∧ (∀ t,
       map _name (custom_list self t)
       = map (custom_name t) (seq 1 (List.length (custom_list self t)))
       ∧ NoDup (map _name (custom_list self t))
       ∧ (default_name t ∉ map _name (custom_list self t))
       ∧ (∀ s, defaults self !! t = Some s
               → name s ∉ map _name (custom_list self t))).
Proof.
  intros self self'.
  split; [|split; [|split; [|intros t; split; [|split; [|split]]]]].
  - exists (variant msg_type (S (List.length (custom_list self msg_type)))).
    subst self'. rewrite custom_list_make_custom, make_custom_eq.
    rewrite decide_True by done. split; [done|]. split; [done|].
    intros Hin. apply (list_elem_of_fmap_2 _name) in Hin.
    rewrite variant_name in Hin.
    change (_name <$> custom_list self msg_type)
      with (map _name (custom_list self msg_type)) in Hin.
    unfold self in Hin. rewrite custom_names in Hin.
    apply list_elem_of_In, in_map_iff in Hin as (k & Hk & Hin).
    apply custom_name_inj in Hk. subst k. apply in_seq in Hin. lia.
  - intros t Ht. subst self'. rewrite custom_list_make_custom.
    by rewrite decide_False.
  - subst self'. by rewrite make_custom_eq.
  - apply custom_names.
  - unfold self. rewrite custom_names.
    apply (@NoDup_fmap_2 _ _ (custom_name t) (custom_name_inj t)).
    apply NoDup_ListNoDup, List.seq_NoDup.
  - unfold self. rewrite custom_names.
    intros (k & Hk & _)%list_elem_of_In%in_map_iff.
    by apply custom_name_ne_default in Hk.
  - intros s Hs. unfold self in *. rewrite defaults_run in Hs.
    rewrite custom_names.
    intros (k & Hk & _)%list_elem_of_In%in_map_iff.
    by eapply builtin_name_ne_custom.
Qed.

(** C5 at four calls, three of them for [pkg/Msg]. *)
Lemma make_custom_appends_fresh_variant_witness :
  map _name
      (custom_list
         (run_make_custom ["pkg/Msg"; "pkg/Other"; "pkg/Msg"; "pkg/Msg"]
                          StrategyMap_init) "pkg/Msg")
  = ["pkg_Msg_v1"; "pkg_Msg_v2"; "pkg_Msg_v3"].
Proof.
  destruct (make_custom_appends_fresh_variant
              ["pkg/Msg"; "pkg/Other"; "pkg/Msg"; "pkg/Msg"] "pkg/Msg")
    as (_ & _ & _ & H).
  destruct (H "pkg/Msg") as (Hnames & _).
  rewrite Hnames. vm_compute. reflexivity.
Defined.

(** ** _default *)

Lemma Reuse_from_ros_type_known (ros_type : string) :
  known_type ros_type →
  Reuse_from_ros_type ros_type = Ok (Reuse (referred_name ros_type)).
Proof.
  unfold known_type, referred_name, builtin.
  destruct (defaults StrategyMap_init !! ros_type) as [s|] eqn:H.
  - intros _.
    assert (defaults StrategyMap_init =
            list_to_map (map_to_list (defaults StrategyMap_init))) as E
      by (by rewrite list_to_map_to_list).
    vm_compute map_to_list in E. rewrite E in H. clear E.
    apply elem_of_list_to_map_2 in H.
    repeat (apply elem_of_cons in H as [H|H];
            [injection H as -> ->; reflexivity|]).
    by apply elem_of_nil in H.
  - intros [[? [=]]|Hc]. unfold Reuse_from_ros_type. by rewrite Hc.
Qed.

Lemma _default_ok (type_token : TypeToken.t) :
  ∃ nm,
    _default type_token = Ok (ByteArrays (TypeToken.length type_token))
    ∨ _default type_token
      = Ok (Arrays (Reuse nm) (TypeToken.length type_token))
    ∨ _default type_token = Ok (Reuse nm).
Proof.
  destruct type_token as [t a len].
  exists (match Reuse_from_ros_type t with Ok (Reuse nm) => nm | _ => "" end).
  unfold _default, Reuse_from_ros_type. simpl.
  destruct (String.eqb t "uint8"), a, (contains "/" t),
    (String.eqb t "Header"); simpl; auto.
Qed.

Lemma _default_not_raises (type_token : TypeToken.t) :
  ¬ raises (_default type_token).
Proof.
  destruct (_default_ok type_token) as (nm & [H|[H|H]]);
    rewrite H; by intros [e [=]].
Qed.

(** C6.  For a type token whose type is a registered built-in or a
    message type, [_default] returns what the catalog is specified to
    resolve it to: the raw-binary strategy for an array of [uint8], the
    byte type; for another array, the array strategy around the
    by-name reference to the default of the element type; for a scalar,
    the by-name reference to the matching built-in or to the default
    composite of the message type.  The array strategy renders as a
    list of 0 to 256 elements when the token has no fixed length, and
    as a tuple of exactly [n] elements when it has the length [n]. *)
Theorem _default_resolves (type_token : TypeToken.t) (module : string) :
  known_type (TypeToken.ros_type type_token) →
  _default type_token = Ok (resolveDefault type_token)
  ∧ (TypeToken.is_array type_token = true →
     TypeToken.ros_type type_token ≠ "uint8" →
     Strategy_to_python (resolveDefault type_token) module =
       match TypeToken.length type_token with
       | None =>
           Ok (module +:+ ".lists(elements="
               +:+ referred_name (TypeToken.ros_type type_token)
               +:+ "(), min_size=0, max_size=256)")
       | Some n =>
           if n >=? 0
           then Ok (module +:+ ".tuples(" +:+ "*["
                    +:+ referred_name (TypeToken.ros_type type_token)
                    +:+ "() for i in xrange(" +:+ pretty n +:+ ")])")
           else Raise AssertionError
       end).
Proof.
  destruct type_token as [t a len]. simpl. intros Hk. split.
  - unfold _default, resolveDefault. simpl.
    destruct (String.eqb_spec t "uint8") as [->|Hne].
    + destruct a; [done|]. simpl. reflexivity.
    + simpl. rewrite Reuse_from_ros_type_known by done. simpl.
      rewrite bool_decide_false by done. by destruct a.
  - intros -> Hne. unfold resolveDefault. simpl.
    rewrite bool_decide_false by done.
    destruct len as [n|]; simpl.
    + destruct (n >=? 0); [|done]. simpl.
      rewrite ?str_app_nil_r, ?str_app_assoc. reflexivity.
    + rewrite ?str_app_nil_r, ?str_app_assoc. reflexivity.
Qed.

(** C6 at an [int32] array of length 3. *)
Lemma _default_resolves_witness :
  _default (ArrayTypeToken "int32" (Some 3))
  = Ok (Arrays (Reuse "ros_int32") (Some 3))
  ∧ Strategy_to_python (resolveDefault (ArrayTypeToken "int32" (Some 3)))
                       "strategies"
    = Ok ("strategies.tuples(" +:+ "*[ros_int32() for i in xrange(3)])").
Proof.
  assert (known_type "int32") as Hk.
  { left. exists (RosIntStrategy "int32"). vm_compute. reflexivity. }
  destruct (_default_resolves (ArrayTypeToken "int32" (Some 3)) "strategies"
              Hk) as [H1 H2].
  split.
  - rewrite H1. vm_compute. reflexivity.
  - rewrite H2; [vm_compute; reflexivity|reflexivity|discriminate].
Defined.

(** C8 fails.  After the defaults of a schema are built that refers
    to the undeclared message type [pkg/Missing], neither that type nor
    the unknown primitive [nope] is registered, and [_default] returns
    a by-name reference for both instead of raising. *)
Lemma _default_undeclared_type_returns :
  let self := (make_defaults incomplete_schema StrategyMap_init).1 in
  (make_defaults incomplete_schema StrategyMap_init).2 = Ok tt
  ∧ defaults self !! "pkg/Missing" = None
  ∧ defaults self !! "nope" = None
  ∧ _default (TypeToken "pkg/Missing") = Ok (Reuse "pkg_Missing")
  ∧ _default (TypeToken "nope") = Ok (Reuse "ros_nope")
  ∧ ¬ raises (_default (TypeToken "pkg/Missing"))
  ∧ ¬ raises (_default (TypeToken "nope")).
Proof.
  repeat split; try (vm_compute; reflexivity); apply _default_not_raises.
Qed.

(** C8, amended.  [_default] raises for no type token.  Whatever the
    type name, registered or not, it consults no catalog and builds a
    name from the type name alone: the type name with its slash
    replaced by an underscore when it has one, [std_msgs_Header] for
    the name [Header], and [ros_] followed by the type name otherwise.
    It returns the reference by that name for a scalar, an array
    strategy of the length of the token around that reference for an
    array, and the raw-binary strategy of that length for an array of
    [uint8]. *)
Theorem _default_returns_for_any_type (type_token : TypeToken.t) :
  let ros_type := TypeToken.ros_type type_token in
  let referred :=
    Reuse (if contains "/" ros_type then replace "/" "_" ros_type
           else if bool_decide (ros_type = "Header") then "std_msgs_Header"
           else "ros_" +:+ ros_type) in
  _default type_token
  = Ok (if TypeToken.is_array type_token
        then if bool_decide (ros_type = "uint8")
             then ByteArrays (TypeToken.length type_token)
             else Arrays referred (TypeToken.length type_token)
        else referred)
  ∧ ¬ raises (_default type_token).
Proof.
  split; [|apply _default_not_raises].
  destruct type_token as [t a len]. unfold _default, Reuse_from_ros_type.
  cbn [TypeToken.ros_type TypeToken.is_array TypeToken.length].
  destruct (String.eqb_spec t "uint8") as [->|Hu].
  - rewrite bool_decide_true by done. by destruct a.
  - rewrite (bool_decide_false (t = "uint8")) by done. cbn [andb].
    destruct (String.eqb_spec t "Header") as [->|Hh].
    + rewrite bool_decide_true by done. by destruct a.
    + rewrite bool_decide_false by done.
      by destruct (contains "/" t), a.
Qed.

(** ** make_defaults *)

Lemma for_each_ok {S A : Type} (xs : list A) (body : A → M S unit) (s : S) :
  (∀ x s, x ∈ xs → (body x s).2 = Ok tt) → (for_each xs body s).2 = Ok tt.
Proof.
  revert s. induction xs as [|x xs IH]; intros s H; [done|].
  simpl. unfold M_bind.
  pose proof (H x s (list_elem_of_here _ _)) as Hx.
  destruct (body x s) as [s' [[]|e]]; [|done].
  apply IH. intros y s'' Hy. apply H. by apply list_elem_of_further.
Qed.

Lemma forallb_isinstance_dict {A : Type} (d : gmap string (dict_arg A)) :
  forallb isinstance_dict (map_to_list d).*2 = true
  ↔ ∀ k v, d !! k = Some v → ∃ d', v = Dict d'.
Proof.
  rewrite forallb_forall. split.
  - intros H k v Hkv.
    assert (In v (map_to_list d).*2) as Hin.
    { apply list_elem_of_In, list_elem_of_fmap. exists (k, v).
      split; [done|]. by apply elem_of_map_to_list. }
    apply H in Hin. destruct v; [done|eauto].
  - intros H v Hin.
    apply list_elem_of_In, list_elem_of_fmap in Hin as ([k v'] & -> & Hin).
    apply elem_of_map_to_list in Hin. apply H in Hin as [d' ->]. done.
Qed.

(** C10.  [make_defaults] raises TypeError exactly when its argument
    is not a dict whose values are all dicts; when it is not, the
    catalog after the call is the catalog before it, and when it is,
    the call returns normally. *)
Theorem make_defaults_TypeError (self : StrategyMap)
    (msg_data : dict_arg (dict_arg TypeToken.t)) :
  ((make_defaults msg_data self).2 = Raise TypeError
   ↔ ¬ dict_of_dicts msg_data)
  ∧ (¬ dict_of_dicts msg_data → (make_defaults msg_data self).1 = self)
  ∧ (dict_of_dicts msg_data → (make_defaults msg_data self).2 = Ok tt).
Proof.
  assert (dict_of_dicts msg_data → (make_defaults msg_data self).2 = Ok tt)
    as Hvalid.
  { intros (d & -> & Hd). unfold make_defaults.
    apply forallb_isinstance_dict in Hd as Hall. rewrite Hall. simpl.
    apply for_each_ok. intros [msg_type data] s Hin.
    apply elem_of_map_to_list, Hd in Hin as [d' ->].
    simpl. unfold mbind, M_mbind, M_bind. simpl.
    apply for_each_ok. intros [field_name type_token] s' _.
    unfold mbind, M_mbind, M_bind, lift. simpl.
    destruct (_default_ok type_token) as (nm & [H|[H|H]]); by rewrite H. }
  assert (¬ dict_of_dicts msg_data →
          make_defaults msg_data self = (self, Raise TypeError)) as Hinvalid.
  { intros Hn. unfold make_defaults. destruct msg_data as [|d]; [done|].
    destruct (forallb isinstance_dict (map_to_list d).*2) eqn:Hall; [|done].
    destruct Hn. exists d. split; [done|]. by apply forallb_isinstance_dict. }
  split; [split|split].
  - intros Hraise Hd. apply Hvalid in Hd. congruence.
  - intros Hn. by rewrite Hinvalid.
  - intros Hn. by rewrite Hinvalid.
  - done.
Qed.

(** C10 at a dict with a value that is not a dict. *)
Lemma make_defaults_TypeError_witness :
  (make_defaults (Dict {[ "pkg/Msg" := NotADict ]}) StrategyMap_init).2
  = Raise TypeError
  ∧ (make_defaults (Dict {[ "pkg/Msg" := NotADict ]}) StrategyMap_init).1
    = StrategyMap_init.
Proof.
  assert (¬ dict_of_dicts
            (Dict ({[ "pkg/Msg" := NotADict ]}
                   : gmap string (dict_arg TypeToken.t)))) as Hn.
  { intros (d & [= <-] & H).
    destruct (H "pkg/Msg" NotADict) as [d' [=]].
    apply lookup_singleton_eq. }
  destruct (make_defaults_TypeError StrategyMap_init
              (Dict {[ "pkg/Msg" := NotADict ]})) as (H1 & H2 & _).
  split; [by apply H1|by apply H2].
Defined.

(** ** The rendered integer strategy *)

Lemma ros_float_call_default_raises (minv maxv : Qcanon.Qc) :
  ros_float_call minv maxv minv maxv = Raise ValueError.
Proof.
  unfold ros_float_call, ros_float_guard.
  rewrite (bool_decide_true (Qcanon.Qcle minv minv)); [done|].
  apply Qcanon.Qcle_refl.
Qed.

Lemma ros_int_call_eq (ros_type : string) (minv maxv a b : Z) :
  lookup_type ros_type RosIntStrategy_TYPES = Ok (minv, maxv) →
  ros_int_call ros_type a b =
    if bool_decide (a ≤ minv ∨ maxv ≤ a ∨ b ≤ minv ∨ maxv ≤ b ∨ b < a)
    then Raise ValueError
    else Ok (Z.max a minv, Z.min b maxv).
Proof.
  intros H. unfold ros_int_call. rewrite H. simpl.
  rewrite orb_false_r.
  destruct (Z.leb_spec a minv), (Z.geb_spec a maxv), (Z.leb_spec b minv),
    (Z.geb_spec b maxv), (Z.gtb_spec a b); simpl;
    first [ rewrite bool_decide_true by lia | rewrite bool_decide_false by lia ];
    reflexivity.
Qed.

(** C2.  What the rendered bounds check does: for a built-in integer
    type with the natural range [minv..maxv], the call with the bounds
    [a] and [b] raises ValueError exactly when [a <= minv], [a >= maxv],
    [b <= minv], [b >= maxv] or [a > b]; when it does not raise, the
    bounds handed to [integers] are the clamped ones, which are then
    the caller bounds themselves.  A caller minimum at the
    natural minimum and a caller maximum at the natural maximum are
    therefore errors, and so is the call with the default arguments of
    the rendered function, for the integer and for the float
    template. *)
Theorem ros_int_call_raises_at_natural_bounds (ros_type : string)
    (minv maxv a b : Z) :
  lookup_type ros_type RosIntStrategy_TYPES = Ok (minv, maxv) →
  (ros_int_call ros_type a b = Raise ValueError
   ↔ a ≤ minv ∨ maxv ≤ a ∨ b ≤ minv ∨ maxv ≤ b ∨ b < a)
  ∧ (∀ r, ros_int_call ros_type a b = Ok r →
          r = (Z.max a minv, Z.min b maxv) ∧ r = (a, b))
  ∧ ros_int_call_default ros_type = Raise ValueError
  ∧ (∀ fmin fmax : Qcanon.Qc,
       ros_float_call fmin fmax fmin fmax = Raise ValueError).
Proof.
  intros H. split; [|split; [|split]].
  - rewrite (ros_int_call_eq _ _ _ _ _ H). case_bool_decide; naive_solver.
  - intros r. rewrite (ros_int_call_eq _ _ _ _ _ H).
    case_bool_decide as Hg; [done|]. intros [= <-].
    split; [done|]. f_equal; lia.
  - unfold ros_int_call_default. rewrite H. simpl.
    rewrite (ros_int_call_eq _ _ _ _ _ H). rewrite bool_decide_true; [done|lia].
  - apply ros_float_call_default_raises.
Qed.

(** C2 at [uint8]: the rendered text, and the call with the bounds 0
    and 255. *)
Lemma ros_int_call_raises_at_natural_bounds_witness :
  RosIntStrategy_to_python "uint8" "strategies" 0 4 =
    Ok ("def ros_uint8(min_value=0, max_value=255):" +:+ String "010" (
        "    if min_value <= 0 or min_value >= 255 or max_value <= 0 "
        +:+ "or max_value >= 255 or min_value > max_value:" +:+ String "010" (
        "        raise ValueError('values out of bounds: {}, {}'"
        +:+ ".format(min_value, max_value))" +:+ String "010" (
        "    return strategies.integers(min_value=max(min_value, 0), "
        +:+ "max_value=min(max_value, 255))"))))
  ∧ ros_int_call "uint8" 0 255 = Raise ValueError
  ∧ ros_int_call_default "uint8" = Raise ValueError.
Proof.
  split; [vm_compute; reflexivity|].
  pose proof (ros_int_call_raises_at_natural_bounds "uint8" 0 255 0 255
                ltac:(reflexivity)) as (H1 & _ & H2 & _).
  split; [apply H1; lia|exact H2].
Defined.

(** ** The random-index modifier *)

(** C7.  The text of a random-index modifier is the line of the
    index draw followed by the text of the inner modifier at the field
    indexed by [i]; the draw is between 0 and [len] of the array, so
    for an array of [n] elements the index [n], which is not a valid
    index, can be drawn. *)
Theorem RandomIndexModifier_draws_up_to_len (modifier : Modifier)
    (field_name var_name module : string) (indent tab_size : nat) (n : Z) :
  Modifier_to_python (RandomIndexModifier modifier) field_name var_name
                     module indent tab_size
  = (inner ← Modifier_to_python modifier (field_name +:+ "[i]") var_name
               module indent tab_size;
     Ok (spaces indent +:+ "i = draw(" +:+ module
         +:+ ".integers(min_value=0, max_value=len(" +:+ var_name +:+ "."
         +:+ field_name +:+ ")))" +:+ String "010" inner))
  ∧ (0 ≤ n → IDX_draws n n ∧ ¬ valid_index n n).
Proof.
  split.
  - simpl. unfold RandomIndexModifier_IDX.
    destruct (Modifier_to_python modifier _ _ _ _ _); [|done]. simpl.
    by rewrite ?str_app_assoc.
  - unfold IDX_draws, valid_index. lia.
Qed.

(** C7 at the field [data] of an array of three elements. *)
Lemma RandomIndexModifier_draws_up_to_len_witness :
  Modifier_to_python (RandomIndexModifier (FixedValueModifier (PyInt 5)))
                     "data" "msg" "strategies" 4 4
  = Ok ("    i = draw(strategies.integers(min_value=0, "
        +:+ "max_value=len(msg.data)))" +:+ String "010" "    msg.data[i] = 5")
  ∧ IDX_draws 3 3 ∧ ¬ valid_index 3 3.
Proof.
  pose proof (RandomIndexModifier_draws_up_to_len
                (FixedValueModifier (PyInt 5)) "data" "msg" "strategies"
                4%nat 4%nat 3) as [H1 H2].
  split; [rewrite H1; vm_compute; reflexivity|apply H2; lia].
Defined.

(** ** The condition compiler *)

Import ConditionTransformer.

(** *** The loop frames [_field_expression] records *)

Lemma _field_expression_loop_eq (segments : list (list HplField.t))
    (root : string) (self : ConditionTransformer.t) :
  _field_expression_loop root segments self =
    (mk (loops self ++ path_frames root (_var self) segments)
        (left_operand self) (right_operands self)
        (_var self + List.length segments)%nat (_var_prefix self),
     Ok (path_root root (_var self) segments)).
Proof.
  revert root self. induction segments as [|fields rest IH]; intros root self.
  - simpl. unfold mret, M_mret. rewrite List.app_nil_r, Nat.add_0_r.
    by destruct self.
  - simpl. unfold mbind, M_mbind, M_bind, _new_var, append_loop, modify.
    simpl. rewrite IH. simpl. rewrite <- List.app_assoc. simpl.
    by rewrite Nat.add_succ_r.
Qed.

Lemma length_path_frames (segments : list (list HplField.t)) (root : string)
    (k : nat) :
  List.length (path_frames root k segments) = List.length segments.
Proof.
  revert root k. induction segments as [|f rest IH]; intros; [done|].
  simpl. by rewrite IH.
Qed.

(** *** Where [gen] stops *)

(** The classes of the front end are no names of the module. *)
Lemma global_unbound :
  global "HplLiteral" = Raise NameError
  ∧ global "HplFieldExpression2" = Raise NameError
  ∧ global "HplSet" = Raise NameError
  ∧ global "HplRange" = Raise NameError.
Proof. repeat split; vm_compute; reflexivity. Qed.

(** The three tests stop at their first [isinstance], before any
    operand is recorded. *)
Lemma _equality_test_eq (c : HplCondition.t) (self : ConditionTransformer.t) :
  _equality_test c self = (self, Raise NameError).
Proof.
  unfold _equality_test, mbind, M_mbind, M_bind, lift.
  by destruct global_unbound as (-> & _).
Qed.

Lemma _comparison_test_eq (c : HplCondition.t)
    (self : ConditionTransformer.t) :
  _comparison_test c self = (self, Raise NameError).
Proof.
  unfold _comparison_test, mbind, M_mbind, M_bind, lift.
  by destruct global_unbound as (-> & _).
Qed.

Lemma _inclusion_test_eq (c : HplCondition.t) (self : ConditionTransformer.t) :
  _inclusion_test c self = (self, Raise NameError).
Proof.
  unfold _inclusion_test, mbind, M_mbind, M_bind, lift.
  by destruct global_unbound as (_ & _ & -> & _).
Qed.

(** What [_process] leaves, and what it raises. *)
Lemma _process_eq (c : HplCondition.t) (prefix : string) :
  _process c (mk [] None [] 0 prefix)
  = (mk (left_frames prefix c) (Some (left_reference prefix c)) []
        (List.length (HplFieldExpression.get_loops (HplCondition.field c)))
        prefix,
     Raise (if has_kind c then NameError else AssertionError)).
Proof.
  unfold _process, _field_expression.
  unfold mbind, M_mbind, M_bind, get, mret, M_mret, set_left_operand, modify.
  rewrite _field_expression_loop_eq.
  cbn [loops left_operand right_operands _var ConditionTransformer._var_prefix
       app Nat.add].
  unfold has_kind, left_frames, left_reference.
  destruct (HplCondition.is_equality_test c);
    [|destruct (HplCondition.is_comparison_test c)]; cbn [orb].
  - by rewrite _equality_test_eq.
  - by rewrite _comparison_test_eq.
  - unfold lift at 1, assert.
    destruct (HplCondition.is_inclusion_test c); [|done].
    by rewrite _inclusion_test_eq.
Qed.

(** What [gen] leaves, and what it raises: it returns for no
    condition. *)
Lemma gen_eq (c : HplCondition.t) (self : ConditionTransformer.t) :
  gen c self
  = (mk (left_frames (_var_prefix self) c)
        (Some (left_reference (_var_prefix self) c)) []
        (List.length (HplFieldExpression.get_loops (HplCondition.field c)))
        (_var_prefix self),
     Raise (if has_kind c then NameError else AssertionError)).
Proof.
  unfold gen. unfold mbind at 1 2, M_mbind at 1 2, M_bind at 1 2.
  unfold _reset at 1, modify at 1. by rewrite _process_eq.
Qed.

(** ** No assertion is returned *)

(** C3.  [gen] returns no assertion for a condition that is an
    equality, a comparison or an inclusion test: it records the [n]
    loop frames of the left path, one per quantified segment, outer to
    inner, and then raises NameError at the first [isinstance] of the
    test, whose class name the module does not bind; the loop of [gen]
    that would wrap the predicate in the aggregations is never
    reached. *)
Theorem gen_raises_before_wrapping (self : ConditionTransformer.t)
    (c : HplCondition.t) (n : nat) :
  has_kind c = true →
  List.length (HplFieldExpression.get_loops (HplCondition.field c)) = n →
  (gen c self).2 = Raise NameError
  ∧ (∀ text, (gen c self).2 ≠ Ok text)
  ∧ loops (gen c self).1 = left_frames (_var_prefix self) c
  ∧ List.length (loops (gen c self).1) = n.
Proof.
  intros Hkind Hn. rewrite gen_eq, Hkind. cbn [fst snd loops].
  split; [done|split; [done|split; [done|]]].
  unfold left_frames. by rewrite length_path_frames.
Qed.

(** C3 at two nested existential loops, and at a path without loops. *)
Lemma gen_raises_before_wrapping_witness :
  (gen nested_any_eq_5 init).2 = Raise NameError
  ∧ List.length (loops (gen nested_any_eq_5 init).1) = 2%nat
  ∧ (gen level_eq_5 init).2 = Raise NameError.
Proof.
  destruct (gen_raises_before_wrapping init nested_any_eq_5 2
              eq_refl eq_refl) as (H1 & _ & _ & H2).
  destruct (gen_raises_before_wrapping init level_eq_5 0 eq_refl eq_refl)
    as (H3 & _).
  by rewrite H1, H2, H3.
Defined.

(** *** Ranges *)

(** C4.  For an inclusion condition, over a range or over a set,
    [_inclusion_test] raises NameError at its first [isinstance] and
    records no comparison, so that [gen] raises NameError with no
    operand on the right: the two comparisons of a range are never
    appended. *)
Theorem gen_range_raises_NameError (self : ConditionTransformer.t)
    (c : HplCondition.t) :
  HplCondition.is_equality_test c = false →
  HplCondition.is_comparison_test c = false →
  HplCondition.is_inclusion_test c = true →
  (∀ s, _inclusion_test c s = (s, Raise NameError))
  ∧ (gen c self).2 = Raise NameError
  ∧ right_operands (gen c self).1 = [].
Proof.
  intros Heq Hcmp Hinc. split; [intros s; apply _inclusion_test_eq|].
  rewrite gen_eq. unfold has_kind. by rewrite Heq, Hcmp, Hinc.
Qed.

(** C4 at the range from 0 excluded to 10 included. *)
Lemma gen_range_raises_NameError_witness :
  HplCondition.value level_in_0_10
  = HplRange (HplLiteral (PyInt 0)) (HplLiteral (PyInt 10)) true false
  ∧ (gen level_in_0_10 init).2 = Raise NameError
  ∧ right_operands (gen level_in_0_10 init).1 = [].
Proof.
  destruct (gen_range_raises_NameError init level_in_0_10
              eq_refl eq_refl eq_refl) as (_ & H1 & H2).
  by rewrite H1, H2.
Defined.

(** ** Determinism of the condition compiler *)

Lemma reachable_prefix (self : ConditionTransformer.t) :
  reachable self → _var_prefix self = "self._user_".
Proof. induction 1 as [|self c _ IH]; [done|]. by rewrite gen_eq. Qed.

(** C9.  On any two transformers, new or used, [gen] has the same
    outcome for the same condition and leaves the same attributes: it
    starts by resetting all of them but the constant prefix.  The
    outcome is an exception in every case, never an assertion. *)
Theorem gen_deterministic (c : HplCondition.t)
    (s1 s2 : ConditionTransformer.t) :
  reachable s1 → reachable s2 →
  (gen c s1).2 = (gen c s2).2 ∧ (gen c s1).1 = (gen c s2).1
  ∧ ∀ text, (gen c s1).2 ≠ Ok text.
Proof.
  intros H1%reachable_prefix H2%reachable_prefix.
  rewrite !gen_eq, H1, H2. by cbn [fst snd].
Qed.

(** C9 at a new transformer and one that has compiled a condition. *)
Lemma gen_deterministic_witness :
  (gen nested_any_eq_5 init).2
  = (gen nested_any_eq_5 (gen level_in_0_10 init).1).2
  ∧ (gen nested_any_eq_5 (gen level_in_0_10 init).1).2 = Raise NameError.
Proof.
  destruct (gen_deterministic nested_any_eq_5 init
              (gen level_in_0_10 init).1 reachable_init
              (reachable_gen _ _ reachable_init)) as (H & _ & _).
  split; [exact H|]. rewrite <- H. by rewrite gen_eq.
Defined.

(** ** The strategy synthesizer *)

(** C1.  [StrategyTransformer.gen] returns for no message filter: it
    raises, and leaves the empty dict of [_reset] as catalog.  For the
    condition [level = 5] the exception is the AttributeError of the
    lookup of [make_custom] on that dict. *)
Theorem StrategyTransformer_gen_raises
    (normalise : HplMsgFilter.t → HplMsgFilter.t)
    (repr_strategies : StrategyTransformer.strategies_attr → string)
    (self : StrategyTransformer.t) (msg_filter : HplMsgFilter.t) :
  let out := StrategyTransformer.gen normalise repr_strategies msg_filter self
  in
  raises out.2
  ∧ StrategyTransformer.strategies out.1 = StrategyTransformer.IsDict ∅
  ∧ (StrategyTransformer.gen (λ f, f) repr_strategies level_eq_5_filter
       StrategyTransformer.init).2 = Raise AttributeError.
Proof.
  split; [|split; [|reflexivity]].
  - unfold StrategyTransformer.gen, StrategyTransformer._process,
      StrategyTransformer._process_left_field,
      StrategyTransformer.strategies_make_custom,
      mbind, M_mbind, M_bind, StrategyTransformer._reset, modify, lift.
    cbn. destruct (last _); [|by eexists].
    cbn. destruct (last _); by eexists.
  - unfold StrategyTransformer.gen, StrategyTransformer._process,
      StrategyTransformer._process_left_field,
      StrategyTransformer.strategies_make_custom,
      mbind, M_mbind, M_bind, StrategyTransformer._reset, modify, lift.
    cbn. destruct (last _); [|done].
    cbn. by destruct (last _).
Qed.

(** * Further properties *)

(** ** The defaults of a schema *)

(** A loop of insertions over the items of a dict. *)
Lemma lookup_foldl_insert {A B : Type} (g : string → A → B)
    (l : list (string * A)) (acc : gmap string B) (k : string) :
  NoDup l.*1 →
  foldl (λ acc '(k, a), <[k := g k a]> acc) acc l !! k
  = match (list_to_map l : gmap string A) !! k with
    | Some a => Some (g k a)
    | None => acc !! k
    end.
Proof.
  revert acc. induction l as [|[k0 a0] l IH]; intros acc Hnd; [done|].
  apply NoDup_cons in Hnd as [Hk0 Hnd]. cbn [foldl list_to_map foldr].
  rewrite IH by done. cbn [uncurry].
  destruct (decide (k0 = k)) as [->|Hk].
  - rewrite (not_elem_of_list_to_map_1 _ _ Hk0).
    by rewrite !lookup_insert_eq.
  - by rewrite !lookup_insert_ne.
Qed.

Lemma lookup_foldl_insert_map {A B : Type} (g : string → A → B)
    (m : gmap string A) (acc : gmap string B) :
  foldl (λ acc '(k, a), <[k := g k a]> acc) acc (map_to_list m)
  = map_imap (λ k a, Some (g k a)) m ∪ acc.
Proof.
  apply map_eq. intros k.
  rewrite lookup_foldl_insert by apply NoDup_fst_map_to_list.
  rewrite list_to_map_to_list, lookup_union, map_lookup_imap.
  destruct (m !! k), (acc !! k); reflexivity.
Qed.

Lemma for_each_cons {S A : Type} (x : A) (xs : list A) (body : A → M S unit)
    (s : S) :
  for_each (x :: xs) body s
  = match body x s with
    | (s', Ok _) => for_each xs body s'
    | (s', Raise e) => (s', Raise e)
    end.
Proof. reflexivity. Qed.

Lemma M_modify_bind {S B : Type} (f : S → S) (k : unit → M S B) (s : S) :
  (modify f ≫= k) s = k tt (f s).
Proof. reflexivity. Qed.

Lemma M_lift_Ok_bind {S A B : Type} (a : A) (k : A → M S B) (s : S) :
  (lift (Ok a) ≫= k) s = k a s.
Proof. reflexivity. Qed.

Lemma alter_lookup_insert {B : Type} (f : B → B) (m : gmap string B)
    (k : string) (x : B) :
  m !! k = Some x → alter f k m = <[k := f x]> m.
Proof.
  intros H. apply map_eq. intros j. rewrite lookup_alter, lookup_insert.
  case_decide; subst; [by rewrite H|done].
Qed.

Lemma _default_Ok (type_token : TypeToken.t) :
  ∃ s, _default type_token = Ok s.
Proof. destruct (_default_ok type_token) as (nm & [H|[H|H]]); eauto. Qed.

(** The loop over the fields of one message type. *)
Lemma make_defaults_fields (msg_type t0 n : string)
    (l : list (string * TypeToken.t)) (fs : gmap string FieldStrategy)
    (self : StrategyMap) :
  defaults self !! msg_type = Some (Msg (mkMsgStrategy t0 fs n)) →
  for_each l (λ '(field_name, type_token),
    strategy ← lift (_default type_token);
    modify (set_field msg_type
              (FieldStrategy_init field_name (Some strategy)))) self
  = (mkStrategyMap
       (<[msg_type :=
            Msg (mkMsgStrategy t0
                   (foldl (λ acc '(k, tok), <[k := default_field k tok]> acc)
                          fs l) n)]> (defaults self))
       (custom self),
     Ok tt).
Proof.
  revert fs self. induction l as [|[k tok] l IH]; intros fs self Hself.
  - cbn [for_each foldl]. unfold mret, M_mret.
    rewrite insert_id by done. by destruct self.
  - rewrite for_each_cons. destruct (_default_Ok tok) as [s Hs].
    assert ((lift (_default tok) ≫= λ strategy,
               modify (set_field msg_type
                         (FieldStrategy_init k (Some strategy)))) self
            = (set_field msg_type (FieldStrategy_init k (Some s)) self,
               Ok tt)) as Hstep.
    { unfold mbind, M_mbind, M_bind, lift, modify. by rewrite Hs. }
    cbv beta iota. rewrite Hstep.
    rewrite (IH (<[k := FieldStrategy_init k (Some s)]> fs)).
    + unfold set_field. rewrite (alter_lookup_insert _ _ _ _ Hself).
      cbn [defaults custom foldl field_name FieldStrategy_init].
      rewrite insert_insert_eq.
      replace (default_field k tok) with (FieldStrategy_init k (Some s));
        [done|]. unfold default_field. by rewrite Hs.
    + unfold set_field. rewrite (alter_lookup_insert _ _ _ _ Hself).
      cbn [defaults field_name FieldStrategy_init].
      by rewrite lookup_insert_eq.
Qed.

(** The loop over the message types. *)
Lemma make_defaults_types (l : list (string * dict_arg TypeToken.t))
    (self : StrategyMap) :
  Forall (λ '(_, data), isinstance_dict data = true) l →
  for_each l (λ '(msg_type, data),
    modify (λ self,
      mkStrategyMap
        (<[msg_type := Msg (MsgStrategy_init msg_type None)]>
           (defaults self))
        (custom self)) ;;
    items ← lift (iteritems data);
    for_each items (λ '(field_name, type_token),
      strategy ← lift (_default type_token);
      modify (set_field msg_type
                (FieldStrategy_init field_name (Some strategy))))) self
  = (mkStrategyMap
       (foldl (λ acc '(t, data),
                 <[t := Msg (default_composite t
                               match data with
                               | Dict d => d
                               | NotADict => ∅
                               end)]> acc)
              (defaults self) l)
       (custom self),
     Ok tt).
Proof.
  revert self. induction l as [|[t data] l IH]; intros self Hl.
  - cbn [for_each foldl]. unfold mret, M_mret. by destruct self.
  - apply Forall_cons in Hl as [Hdata Hl]. destruct data as [|d]; [done|].
    rewrite for_each_cons. cbv beta iota.
    set (self1 := mkStrategyMap
                    (<[t := Msg (MsgStrategy_init t None)]> (defaults self))
                    (custom self)).
    assert (Hfields := make_defaults_fields t t (replace "/" "_" t)
                         (map_to_list d) ∅ self1 (lookup_insert_eq _ _ _)).
    match goal with
    | |- match ?body self with _ => _ end = _ =>
        assert (body self
                = (mkStrategyMap (<[t := Msg (default_composite t d)]>
                                    (defaults self)) (custom self), Ok tt))
          as ->
    end.
    { rewrite M_modify_bind. fold self1. cbn [iteritems].
      rewrite M_lift_Ok_bind, Hfields.
      subst self1. cbn [defaults custom].
      rewrite insert_insert_eq, lookup_foldl_insert_map.
      unfold default_composite.
      by rewrite (right_id_L ∅ (∪)). }
    by rewrite IH.
Qed.

(** The catalog after [make_defaults] on a schema. *)
Lemma make_defaults_eq (schema : gmap string (gmap string TypeToken.t))
    (self : StrategyMap) :
  make_defaults (msg_data_of schema) self
  = (mkStrategyMap (default_entries schema ∪ defaults self) (custom self),
     Ok tt).
Proof.
  unfold make_defaults, msg_data_of.
  assert (forallb isinstance_dict (map_to_list (Dict <$> schema)).*2 = true)
    as Hall.
  { apply forallb_isinstance_dict. intros k v.
    rewrite lookup_fmap. destruct (schema !! k); intros [= <-]; eauto. }
  rewrite Hall. cbn [negb].
  rewrite make_defaults_types.
  - rewrite (lookup_foldl_insert_map
               (λ t data, Msg (default_composite t
                                 match data with
                                 | Dict d => d
                                 | NotADict => ∅
                                 end))).
    f_equal. f_equal. f_equal. apply map_eq. intros k.
    unfold default_entries. rewrite !map_lookup_imap, lookup_fmap.
    by destruct (schema !! k).
  - apply Forall_forall. intros [k v] Hin%elem_of_map_to_list.
    rewrite lookup_fmap in Hin. by destruct (schema !! k); inversion Hin.
Qed.

(** An argument of [make_defaults] is a schema, or it is rejected. *)
Lemma make_defaults_cases (msg_data : dict_arg (dict_arg TypeToken.t)) :
  (∃ schema, msg_data = msg_data_of schema)
  ∨ ∀ self, make_defaults msg_data self = (self, Raise TypeError).
Proof.
  destruct msg_data as [|d]; [by right|].
  destruct (forallb isinstance_dict (map_to_list d).*2) eqn:Hall.
  - left.
    exists (omap (λ v, match v with
                       | Dict x => Some x
                       | NotADict => None
                       end) d).
    unfold msg_data_of. f_equal. apply map_eq. intros k.
    rewrite lookup_fmap, lookup_omap.
    destruct (d !! k) as [v|] eqn:Hk; [|done].
    destruct (proj1 (forallb_isinstance_dict d) Hall k v Hk) as [d' ->].
    done.
  - right. intros self. unfold make_defaults. by rewrite Hall.
Qed.

Lemma lookup_default_entries (schema : gmap string (gmap string TypeToken.t))
    (t : string) :
  default_entries schema !! t
  = (λ data, Msg (default_composite t data)) <$> schema !! t.
Proof.
  unfold default_entries. rewrite map_lookup_imap.
  by destruct (schema !! t).
Qed.

Lemma default_entries_union (s2 s1 : gmap string (gmap string TypeToken.t)) :
  default_entries (s2 ∪ s1) = default_entries s2 ∪ default_entries s1.
Proof.
  apply map_eq. intros k.
  rewrite lookup_union, !lookup_default_entries, lookup_union.
  by destruct (s2 !! k), (s1 !! k).
Qed.

(** X1.  [make_defaults] on a schema returns normally and leaves the
    custom lists as they are; the defaults then hold, under each
    message type of the schema, the default composite of its declared
    fields (named by the type with the slash replaced, one field per
    declared field, in place of whatever was registered under that
    type), and every other entry as it was. *)
Theorem make_defaults_registers_schema
    (schema : gmap string (gmap string TypeToken.t)) (self : StrategyMap) :
  (make_defaults (msg_data_of schema) self).2 = Ok tt
  ∧ custom (make_defaults (msg_data_of schema) self).1 = custom self
  ∧ ∀ msg_type,
      defaults (make_defaults (msg_data_of schema) self).1 !! msg_type
      = match schema !! msg_type with
        | Some data => Some (Msg (default_composite msg_type data))
        | None => defaults self !! msg_type
        end.
Proof.
  rewrite make_defaults_eq. cbn [fst snd defaults custom].
  split; [done|split; [done|]]. intros t.
  rewrite lookup_union, lookup_default_entries.
  by destruct (schema !! t), (defaults self !! t).
Qed.

(** X2.  Two calls of [make_defaults] amount to one call on the two
    schemas merged, the second call winning: a message type declared
    in both keeps the fields of the second declaration only.  In
    particular a second call on the same schema changes nothing. *)
Theorem make_defaults_twice
    (first second : gmap string (gmap string TypeToken.t))
    (self : StrategyMap) :
  make_defaults (msg_data_of second)
                (make_defaults (msg_data_of first) self).1
  = make_defaults (msg_data_of (second ∪ first)) self
  ∧ make_defaults (msg_data_of first)
                  (make_defaults (msg_data_of first) self).1
    = make_defaults (msg_data_of first) self.
Proof.
  rewrite !make_defaults_eq. cbn [fst defaults custom].
  rewrite default_entries_union, !(assoc_L (∪)).
  split; [done|]. by rewrite (idemp_L (∪) (default_entries first)).
Qed.

(** X3.  [make_defaults] and [make_custom] do not interfere, whatever
    the arguments: in either order the two calls leave the same
    catalog, [make_custom] returns the same strategy, and
    [make_defaults] has the same outcome. *)
Theorem make_defaults_make_custom_commute
    (msg_data : dict_arg (dict_arg TypeToken.t)) (msg_type : string)
    (self : StrategyMap) :
  (make_custom (make_defaults msg_data self).1 msg_type).1
  = (make_defaults msg_data (make_custom self msg_type).1).1
  ∧ (make_custom (make_defaults msg_data self).1 msg_type).2
    = (make_custom self msg_type).2
  ∧ (make_defaults msg_data (make_custom self msg_type).1).2
    = (make_defaults msg_data self).2.
Proof.
  destruct (make_defaults_cases msg_data) as [[schema ->]|H].
  - rewrite !make_defaults_eq, !make_custom_eq.
    by cbn [fst snd defaults custom].
  - by rewrite !H.
Qed.

(** ** References by name *)

Lemma slash_names_spec (schema : gmap string (gmap string TypeToken.t))
    (t : string) :
  slash_names schema = true → is_Some (schema !! t) → contains "/" t = true.
Proof.
  unfold slash_names. rewrite forallb_forall. intros H [data Ht].
  apply (H (t, data)), list_elem_of_In. by apply elem_of_map_to_list.
Qed.

Lemma closed_schema_spec (schema : gmap string (gmap string TypeToken.t))
    (t field_name : string) (data : gmap string TypeToken.t)
    (type_token : TypeToken.t) :
  closed_schema schema = true →
  schema !! t = Some data → data !! field_name = Some type_token →
  is_Some (builtin (TypeToken.ros_type type_token))
  ∨ is_Some (schema !! TypeToken.ros_type type_token).
Proof.
  unfold closed_schema. intros [_ H]%andb_prop Ht Hf.
  rewrite forallb_forall in H.
  assert (In (t, data) (map_to_list schema)) as Hin
    by by apply list_elem_of_In, elem_of_map_to_list.
  apply H in Hin. rewrite forallb_forall in Hin.
  assert (In (field_name, type_token) (map_to_list data)) as Hin'
    by by apply list_elem_of_In, elem_of_map_to_list.
  apply Hin in Hin'. cbv zeta in Hin'.
  apply orb_prop in Hin' as [H'|H']; apply bool_decide_eq_true in H'; auto.
Qed.

(** The reference to a registered built-in, from its type name and
    from the strategy. *)
Lemma builtin_reference (ros_type : string) (s : TopLevelStrategy) :
  builtin ros_type = Some s →
  Reuse_from_ros_type ros_type = Ok (Reuse (name s))
  ∧ ∀ m, s ≠ Msg m.
Proof.
  intros H. split.
  - rewrite Reuse_from_ros_type_known by (left; by rewrite H).
    unfold referred_name. by rewrite H.
  - unfold builtin in H.
    assert (defaults StrategyMap_init =
            list_to_map (map_to_list (defaults StrategyMap_init))) as E
      by (by rewrite list_to_map_to_list).
    vm_compute map_to_list in E. rewrite E in H. clear E.
    apply elem_of_list_to_map_2 in H.
    repeat (apply elem_of_cons in H as [H|H]; [by inversion H|]).
    by apply elem_of_nil in H.
Qed.

(** The defaults of a new catalog after [make_defaults]. *)
Lemma lookup_make_defaults_init
    (schema : gmap string (gmap string TypeToken.t)) (t : string) :
  defaults (make_defaults (msg_data_of schema) StrategyMap_init).1 !! t
  = match schema !! t with
    | Some data => Some (Msg (default_composite t data))
    | None => builtin t
    end.
Proof.
  rewrite make_defaults_eq. cbn [fst defaults].
  rewrite lookup_union, lookup_default_entries. unfold builtin.
  by destruct (schema !! t), (defaults StrategyMap_init !! t).
Qed.

(** X4.  In the catalog that [make_defaults] leaves for a schema whose
    message types have [pkg/Msg] names, the reference that
    [Reuse.from_ros_type] builds from a registered type name is the
    reference that [Reuse.from_strategy] builds from the strategy
    registered under that name. *)
Theorem from_ros_type_agrees_with_from_strategy
    (schema : gmap string (gmap string TypeToken.t))
    (ros_type : string) (s : TopLevelStrategy) :
  slash_names schema = true →
  defaults (make_defaults (msg_data_of schema) StrategyMap_init).1
    !! ros_type = Some s →
  Reuse_from_ros_type ros_type = Reuse_from_strategy (inl s).
Proof.
  intros Hnames. rewrite lookup_make_defaults_init.
  destruct (schema !! ros_type) as [data|] eqn:Ht.
  - intros [= <-]. unfold Reuse_from_ros_type.
    by rewrite (slash_names_spec schema ros_type Hnames).
  - intros H%builtin_reference. by destruct H as [-> _].
Qed.

(** X4 at the inner message type and at a built-in of the two-level
    schema. *)
Lemma from_ros_type_agrees_with_from_strategy_witness :
  Reuse_from_ros_type "pkg/Inner"
  = Reuse_from_strategy
      (inl (Msg (default_composite "pkg/Inner"
                   {[ "x" := TypeToken "float64";
                      "raw" := ArrayTypeToken "uint8" (Some 4) ]})))
  ∧ Reuse_from_ros_type "uint8"
    = Reuse_from_strategy (inl (RosIntStrategy "uint8")).
Proof.
  split.
  - apply (from_ros_type_agrees_with_from_strategy two_level_schema).
    + vm_compute. reflexivity.
    + rewrite lookup_make_defaults_init. vm_compute. reflexivity.
  - apply (from_ros_type_agrees_with_from_strategy two_level_schema).
    + vm_compute. reflexivity.
    + rewrite lookup_make_defaults_init. vm_compute. reflexivity.
Defined.

(** X5.  For a schema that declares every type its fields use, the
    catalog that [make_defaults] leaves has no dangling name: every
    field of every composite has a strategy, and a name that strategy
    refers to is the name of a strategy in the defaults. *)
Theorem closed_schema_references_resolve
    (schema : gmap string (gmap string TypeToken.t))
    (msg_type field_name : string) (m : MsgStrategy) (f : FieldStrategy) :
  closed_schema schema = true →
  defaults (make_defaults (msg_data_of schema) StrategyMap_init).1
    !! msg_type = Some (Msg m) →
  fields m !! field_name = Some f →
  ∃ st, strategy f = Some st
    ∧ ∀ nm, reference_of st = Some nm →
        ∃ key s,
          defaults (make_defaults (msg_data_of schema) StrategyMap_init).1
            !! key = Some s
          ∧ name s = nm.
Proof.
  intros Hclosed Hm Hf. rewrite lookup_make_defaults_init in Hm.
  assert (slash_names schema = true) as Hnames
    by (by apply andb_prop in Hclosed as [? _]).
  destruct (schema !! msg_type) as [data|] eqn:Ht;
    [|by apply builtin_reference in Hm as [_ Hm]; destruct (Hm m)].
  injection Hm as <-. cbn [fields default_composite] in Hf.
  rewrite map_lookup_imap in Hf.
  destruct (data !! field_name) as [tok|] eqn:Htok; [|done].
  injection Hf as <-. unfold default_field. cbn [strategy].
  destruct (_default_Ok tok) as [st Hst]. rewrite Hst.
  exists st. split; [done|]. intros nm Hnm.
  exists (TypeToken.ros_type tok).
  assert (Reuse_from_ros_type (TypeToken.ros_type tok) = Ok (Reuse nm))
    as Href.
  { destruct tok as [t a len]. unfold _default in Hst.
    cbn [TypeToken.ros_type TypeToken.is_array TypeToken.length] in *.
    destruct (String.eqb t "uint8" && a).
    - injection Hst as <-. done.
    - destruct (Reuse_from_ros_type t) as [r|e] eqn:Hr; [|done].
      assert (∃ x, r = Reuse x) as [x ->].
      { unfold Reuse_from_ros_type in Hr.
        destruct (contains "/" t), (String.eqb t "Header");
          injection Hr as <-; eauto. }
      cbn in Hst. destruct a; injection Hst as <-; cbn in Hnm;
        by injection Hnm as ->. }
  rewrite lookup_make_defaults_init.
  destruct (closed_schema_spec schema msg_type field_name data tok
              Hclosed Ht Htok) as [[s Hs]|[data' Hd]].
  - destruct (schema !! TypeToken.ros_type tok) as [data'|] eqn:Hd.
    + eexists. split; [done|]. cbn [name default_composite _name].
      unfold Reuse_from_ros_type in Href.
      rewrite (slash_names_spec schema _ Hnames) in Href by by rewrite Hd.
      by injection Href.
    + exists s. split; [done|].
      apply builtin_reference in Hs as [Hs _]. congruence.
  - rewrite Hd. eexists. split; [done|]. cbn [name default_composite _name].
    unfold Reuse_from_ros_type in Href.
    rewrite (slash_names_spec schema _ Hnames) in Href by by rewrite Hd.
    by injection Href.
Qed.

(** X5 at the field [children] of [pkg/Msg] in the two-level schema. *)
Lemma closed_schema_references_resolve_witness :
  ∃ st, Some (Arrays (Reuse "pkg_Inner") None) = Some st
    ∧ ∀ nm, reference_of st = Some nm →
        ∃ key s,
          defaults (make_defaults (msg_data_of two_level_schema)
                                  StrategyMap_init).1 !! key = Some s
          ∧ name s = nm.
Proof.
  apply (closed_schema_references_resolve two_level_schema
           "pkg/Msg" "children"
           (default_composite "pkg/Msg"
              {[ "level" := TypeToken "uint8";
                 "children" := ArrayTypeToken "pkg/Inner" None;
                 "header" := TypeToken "std_msgs/Header" ]})
           (mkFieldStrategy "children"
              (Some (Arrays (Reuse "pkg_Inner") None)) [])).
  - vm_compute. reflexivity.
  - rewrite lookup_make_defaults_init. vm_compute. reflexivity.
  - vm_compute. reflexivity.
Defined.

(** ** Rendering of the field strategies *)

Lemma format_lists (module b : string) :
  format "{}.lists(elements={}, min_size=0, max_size=256)" [module; b]
  = Ok (module +:+ ".lists(elements=" +:+ b
        +:+ ", min_size=0, max_size=256)").
Proof. reflexivity. Qed.

Lemma format_tuples (module b n : string) :
  format ("{}.tuples(" +:+ "*[{} for i in xrange({})])") [module; b; n]
  = Ok (module +:+ ".tuples(" +:+ "*[" +:+ b +:+ " for i in xrange("
        +:+ n +:+ ")])").
Proof. reflexivity. Qed.

Lemma format_binary (module n : string) :
  format "{}.binary(min_size=0, max_size={})" [module; n]
  = Ok (module +:+ ".binary(min_size=0, max_size=" +:+ n +:+ ")").
Proof. reflexivity. Qed.

Lemma format_integers (module a b : string) :
  format "{}.integers(min_value={}, max_value={})" [module; a; b]
  = Ok (module +:+ ".integers(min_value=" +:+ a +:+ ", max_value=" +:+ b
        +:+ ")").
Proof. reflexivity. Qed.

(** The outcome of rendering a field strategy. *)
Lemma Strategy_to_python_cases (s : Strategy) (module : string) :
  if lengths_ok s
  then ∃ txt, Strategy_to_python s module = Ok txt
  else Strategy_to_python s module = Raise AssertionError.
Proof.
  revert module.
  induction s as [nm|b IH [n|]|[n|]|lo hi| |]; intros module;
    cbn [lengths_ok Strategy_to_python].
  - eauto.
  - unfold assert. destruct (n >=? 0); cbn [andb]; [|done].
    specialize (IH module). destruct (lengths_ok b).
    + destruct IH as [txt ->]. unfold mbind, result_bind; cbn [bind].
      rewrite format_tuples. eauto.
    + by rewrite IH.
  - specialize (IH "strategies"). destruct (lengths_ok b).
    + destruct IH as [txt ->]. unfold mbind, result_bind; cbn [bind].
      rewrite format_lists. eauto.
    + by rewrite IH.
  - unfold assert. destruct (n >=? 0); [|done].
    unfold mbind, result_bind; cbn [bind]. rewrite format_binary. eauto.
  - unfold mbind, result_bind; cbn [bind assert Z.geb Z.compare].
    rewrite format_binary. eauto.
  - rewrite format_integers. eauto.
  - eauto.
  - eauto.
Qed.

(** X6.  Rendering a field strategy either returns text or raises
    AssertionError, and it raises exactly when a fixed length of a
    byte array or of an array, at any depth, is negative. *)
Theorem Strategy_to_python_AssertionError (s : Strategy) (module : string) :
  (Strategy_to_python s module = Raise AssertionError
   ↔ lengths_ok s = false)
  ∧ ((∃ txt, Strategy_to_python s module = Ok txt) ↔ lengths_ok s = true).
Proof.
  pose proof (Strategy_to_python_cases s module) as H.
  destruct (lengths_ok s).
  - destruct H as [txt H]. rewrite H. split; split; eauto; done.
  - rewrite H. split; split; try done. by intros [txt ?].
Qed.

(** ** Rendering of the composites *)

Lemma contains_count_char (c : ascii) (s : string) :
  contains c s = negb (Nat.eqb (count_char c s) 0).
Proof.
  induction s as [|d s IH]; [done|]. cbn [contains count_char].
  rewrite IH. by destruct (Ascii.eqb d c).
Qed.

Lemma split_length (sep : ascii) (s : string) :
  List.length (split sep s) = S (count_char sep s).
Proof.
  induction s as [|c s IH]; [done|]. cbn [split count_char].
  destruct (Ascii.eqb c sep); cbn [List.length]; [by rewrite IH|].
  destruct (split sep s); cbn [List.length] in *; lia.
Qed.

Lemma mapM_Ok {A B : Type} (f : A → result B) (xs : list A) :
  (∃ ys, mapM f xs = Ok ys) ↔ Forall (λ x, ∃ y, f x = Ok y) xs.
Proof.
  induction xs as [|x xs IH]; cbn [mapM].
  - split; eauto.
  - rewrite Forall_cons, <- IH. split.
    + intros [ys H]. destruct (f x) as [y|]; [|done].
      destruct (mapM f xs) as [ys'|]; [|done]. eauto.
    + intros [[y ->] [ys ->]]. cbn. eauto.
Qed.

Lemma mapM_Raise {A B : Type} (f : A → result B) (xs : list A) (e : exn) :
  Forall (λ x, (∃ y, f x = Ok y) ∨ f x = Raise e) xs →
  (∃ ys, mapM f xs = Ok ys) ∨ mapM f xs = Raise e.
Proof.
  induction 1 as [|x xs [[y Hx]|Hx] _ IH]; cbn [mapM].
  - eauto.
  - rewrite Hx. cbn [bind].
    destruct IH as [[ys ->]| ->]; cbn [bind]; eauto.
  - rewrite Hx. by right.
Qed.

(** The outcome of rendering a composite, by the slashes of its type
    name. *)
Lemma MsgStrategy_to_python_cases (self : MsgStrategy)
    (var_name module : string) (indent tab_size : nat) :
  match count_char "/" (msg_type self) with
  | O => MsgStrategy_to_python self var_name module indent tab_size
         = Raise AssertionError
  | 1%nat =>
      ∃ pkg msg,
        split "/" (msg_type self) = [pkg; msg]
        ∧ MsgStrategy_to_python self var_name module indent tab_size
          = lines ← mapM (λ f, FieldStrategy_to_python f var_name module
                                 (indent + tab_size) tab_size)
                         (map_to_list (fields self)).*2;
            Ok (spaces indent +:+ "@" +:+ module +:+ ".composite" +:+ NL (
                spaces indent +:+ "def " +:+ _name self +:+ "(draw):" +:+ NL (
                spaces indent +:+ spaces tab_size +:+ var_name +:+ " = "
                +:+ pkg +:+ "." +:+ msg +:+ "()" +:+ NL (
                join (NL "") lines +:+ NL (
                spaces indent +:+ spaces tab_size +:+ "return "
                +:+ var_name)))))
  | _ => MsgStrategy_to_python self var_name module indent tab_size
         = Raise ValueError
  end.
Proof.
  unfold MsgStrategy_to_python. rewrite contains_count_char.
  pose proof (split_length "/" (msg_type self)) as Hlen.
  destruct (count_char "/" (msg_type self)) as [|[|n]]; [done| |].
  - destruct (split "/" (msg_type self)) as [|pkg [|msg [|x l]]]; try done.
    exists pkg, msg. done.
  - by destruct (split "/" (msg_type self)) as [|pkg [|msg [|x l]]].
Qed.

(** X7.  Rendering a composite, default or custom and whatever its
    fields, raises AssertionError when its message type has no slash
    and ValueError when it has more than one: the type is taken apart
    into exactly a package and a message name. *)
Theorem MsgStrategy_to_python_msg_type (self : MsgStrategy)
    (var_name module : string) (indent tab_size : nat) :
  (count_char "/" (msg_type self) = 0%nat →
   MsgStrategy_to_python self var_name module indent tab_size
   = Raise AssertionError)
  ∧ ((2 ≤ count_char "/" (msg_type self))%nat →
     MsgStrategy_to_python self var_name module indent tab_size
     = Raise ValueError)
  ∧ (MsgStrategy_to_python self var_name module indent tab_size
     = Raise ValueError →
     (2 ≤ count_char "/" (msg_type self))%nat).
Proof.
  pose proof (MsgStrategy_to_python_cases self var_name module indent
                tab_size) as H.
  destruct (count_char "/" (msg_type self)) as [|[|n]].
  - rewrite H. split; [done|split; [lia|done]].
  - split; [done|split; [lia|]]. destruct H as (pkg & msg & _ & ->).
    intros Hraise. exfalso.
    assert (Forall (λ f, (∃ y, FieldStrategy_to_python f var_name module
                                 (indent + tab_size) tab_size = Ok y)
                         ∨ FieldStrategy_to_python f var_name module
                             (indent + tab_size) tab_size
                           = Raise AssertionError)
                   (map_to_list (fields self)).*2) as Hfields.
    { apply Forall_forall. intros f _. unfold FieldStrategy_to_python.
      destruct (strategy f) as [s|]; [|by right].
      pose proof (Strategy_to_python_cases s module) as Hs.
      destruct (lengths_ok s); [|right; by rewrite Hs].
      destruct Hs as [txt ->]. unfold mbind, result_bind. cbn [bind].
      assert (Forall (λ m, (∃ y, Modifier_to_python m (field_name f) var_name
                                   module (indent + tab_size) tab_size = Ok y)
                           ∨ Modifier_to_python m (field_name f) var_name
                               module (indent + tab_size) tab_size
                             = Raise AssertionError)
                     (modifiers f)) as Hmods.
      { apply Forall_forall. intros m _. generalize (field_name f).
        induction m as [v|s'|v|idx m IH|m IH]; intros fld;
          cbn [Modifier_to_python]; eauto.
        - pose proof (Strategy_to_python_cases s' module) as Hs'.
          destruct (lengths_ok s'); [|right; by rewrite Hs'].
          destruct Hs' as [txt' ->]. left. cbn. eauto.
        - change (format "{}[{}]" [fld; pretty idx])
            with (Ok (fld +:+ "[" +:+ pretty idx +:+ "]")).
          unfold mbind, result_bind. cbn [bind]. apply IH.
        - unfold mbind, result_bind.
          destruct (IH (fld +:+ "[i]")) as [[y ->]| ->]; cbn [bind]; eauto. }
      apply mapM_Raise in Hmods as [[ys ->]| ->]; cbn [bind]; eauto. }
    apply mapM_Raise in Hfields as [[ys Hys]|Hys];
      rewrite Hys in Hraise; done.
  - rewrite H. split; [done|split; [done|]]. lia.
Qed.

(** X7 at a composite for a type with two slashes and at one for a
    type with none. *)
Lemma MsgStrategy_to_python_msg_type_witness :
  MsgStrategy_to_python (MsgStrategy_init "level" None) "msg" "strategies"
                        0 4
  = Raise AssertionError
  ∧ MsgStrategy_to_python (MsgStrategy_init "pkg/sub/Msg" None) "msg"
                          "strategies" 0 4
    = Raise ValueError.
Proof.
  split.
  - apply (MsgStrategy_to_python_msg_type (MsgStrategy_init "level" None)).
    reflexivity.
  - apply (MsgStrategy_to_python_msg_type
             (MsgStrategy_init "pkg/sub/Msg" None)).
    vm_compute. lia.
Defined.

Lemma lengths_ok_default (type_token : TypeToken.t) (s : Strategy) :
  _default type_token = Ok s → lengths_ok s = token_ok type_token.
Proof.
  destruct type_token as [t a len]. unfold _default, token_ok.
  cbn [TypeToken.ros_type TypeToken.is_array TypeToken.length].
  destruct (String.eqb t "uint8" && a) eqn:Hb.
  - intros [= <-]. apply andb_prop in Hb as [_ ->]. by destruct len.
  - unfold Reuse_from_ros_type.
    destruct (contains "/" t), (String.eqb t "Header"), a;
      intros [= <-]; cbn; destruct len; by rewrite ?andb_true_r.
Qed.

(** A field that [make_defaults] made is rendered unless its array
    has a negative length. *)
Lemma default_field_renders (field_name : string) (type_token : TypeToken.t)
    (var_name module : string) (indent tab_size : nat) :
  (∃ txt, FieldStrategy_to_python (default_field field_name type_token)
            var_name module indent tab_size = Ok txt)
  ↔ token_ok type_token = true.
Proof.
  unfold FieldStrategy_to_python, default_field. cbn [strategy modifiers].
  destruct (_default_Ok type_token) as [s Hs]. rewrite Hs.
  rewrite <- (lengths_ok_default _ _ Hs).
  pose proof (Strategy_to_python_cases s module) as H.
  destruct (lengths_ok s).
  - destruct H as [txt ->]. cbn. split; eauto.
  - rewrite H. split; [by intros [txt ?]|done].
Qed.

(** A default composite is rendered exactly when its type name has
    one slash and no array among its fields has a negative length. *)
Lemma default_composite_renders (t : string)
    (data : gmap string TypeToken.t) (var_name module : string)
    (indent tab_size : nat) :
  (∃ txt, MsgStrategy_to_python (default_composite t data)
            var_name module indent tab_size = Ok txt)
  ↔ count_char "/" t = 1%nat
    ∧ ∀ field_name type_token,
        data !! field_name = Some type_token → token_ok type_token = true.
Proof.
  pose proof (MsgStrategy_to_python_cases (default_composite t data)
                var_name module indent tab_size) as H.
  cbn [msg_type default_composite] in H.
  destruct (count_char "/" t) as [|[|n]].
  - rewrite H. split; [by intros [txt ?]|by intros [? _]].
  - destruct H as (pkg & msg & _ & ->).
    set (render := λ f, FieldStrategy_to_python f var_name module
                          (indent + tab_size) tab_size).
    cbn [fields default_composite].
    assert ((∃ ys, mapM render
                     (map_to_list
                        (map_imap (λ field_name type_token,
                                     Some (default_field field_name
                                             type_token)) data)).*2 = Ok ys)
            ↔ ∀ field_name type_token,
                data !! field_name = Some type_token →
                token_ok type_token = true) as Hiff.
    { rewrite mapM_Ok, Forall_forall. split.
      - intros Hall fn tok Hfn.
        apply (default_field_renders fn tok var_name module
                 (indent + tab_size) tab_size), Hall.
        apply list_elem_of_fmap. exists (fn, default_field fn tok).
        split; [done|]. apply elem_of_map_to_list.
        by rewrite map_lookup_imap, Hfn.
      - intros Hall f ([fn f'] & -> & Hin)%list_elem_of_fmap.
        apply elem_of_map_to_list in Hin. rewrite map_lookup_imap in Hin.
        destruct (data !! fn) as [tok|] eqn:Hfn; [|done].
        injection Hin as <-. apply default_field_renders. eauto. }
    rewrite <- Hiff. split.
    + intros [txt Htxt]. split; [done|].
      destruct (mapM render _) as [ys|]; [eauto|done].
    + intros [_ [ys ->]]. cbn. eauto.
  - rewrite H. split; [by intros [txt ?]|by intros [? _]].
Qed.

Lemma renderable_schema_spec (schema : gmap string (gmap string TypeToken.t)) :
  renderable_schema schema = true
  ↔ ∀ msg_type data,
      schema !! msg_type = Some data →
      count_char "/" msg_type = 1%nat
      ∧ ∀ field_name type_token,
          data !! field_name = Some type_token → token_ok type_token = true.
Proof.
  unfold renderable_schema. rewrite forallb_forall. split.
  - intros H t data Ht.
    assert (In (t, data) (map_to_list schema)) as Hin
      by by apply list_elem_of_In, elem_of_map_to_list.
    apply H, andb_prop in Hin as [H1 H2]. split; [by apply Nat.eqb_eq|].
    rewrite forallb_forall in H2. intros fn tok Hfn.
    apply (H2 (fn, tok)), list_elem_of_In. by apply elem_of_map_to_list.
  - intros H [t data] Hin%list_elem_of_In%elem_of_map_to_list.
    destruct (H t data Hin) as [H1 H2]. apply andb_true_intro. split.
    + by apply Nat.eqb_eq.
    + apply forallb_forall.
      intros [fn tok] Hin'%list_elem_of_In%elem_of_map_to_list. eauto.
Qed.

(** The built-ins of a new catalog are all rendered. *)
Lemma builtin_renders (F32min F32max F64min F64max : string)
    (ros_type : string) (s : TopLevelStrategy)
    (var_name module : string) (indent tab_size : nat) :
  builtin ros_type = Some s →
  ∃ txt, TopLevelStrategy_to_python F32min F32max F64min F64max
           s var_name module indent tab_size = Ok txt.
Proof.
  unfold builtin. intros H.
  assert (defaults StrategyMap_init =
          list_to_map (map_to_list (defaults StrategyMap_init))) as E
    by (by rewrite list_to_map_to_list).
  vm_compute map_to_list in E. rewrite E in H. clear E.
  apply elem_of_list_to_map_2 in H.
  repeat (apply elem_of_cons in H as [H|H];
          [injection H as _ ->; eexists; reflexivity|]).
  by apply elem_of_nil in H.
Qed.

(** X8.  After [make_defaults] on a new catalog, every strategy of the
    defaults is rendered, built-in or composite, exactly when each
    message type of the schema has a name with one slash and no array
    of the schema has a negative length; [make_defaults] itself
    accepts the other schemas too.  The texts of the four float
    constants are arbitrary. *)
Theorem catalog_renders (F32min F32max F64min F64max : string)
    (schema : gmap string (gmap string TypeToken.t))
    (var_name module : string) (indent tab_size : nat) :
  renderable_schema schema = true
  ↔ ∀ key s,
      defaults (make_defaults (msg_data_of schema) StrategyMap_init).1
        !! key = Some s →
      ∃ txt, TopLevelStrategy_to_python F32min F32max F64min F64max
               s var_name module indent tab_size = Ok txt.
Proof.
  rewrite renderable_schema_spec. split.
  - intros H key s. rewrite lookup_make_defaults_init.
    destruct (schema !! key) as [data|] eqn:Hkey.
    + intros [= <-]. cbn [TopLevelStrategy_to_python].
      apply default_composite_renders. eauto.
    + apply builtin_renders.
  - intros H t data Ht.
    apply (default_composite_renders t data var_name module indent tab_size).
    apply (H t (Msg (default_composite t data))).
    by rewrite lookup_make_defaults_init, Ht.
Qed.

(** ** The name of the rendered function *)

Lemma occurs_here (needle post : string) : occurs needle (needle +:+ post).
Proof. by exists "", post. Qed.

Lemma occurs_cons (needle text : string) (c : ascii) :
  occurs needle text → occurs needle (String c text).
Proof. intros (pre & post & ->). by exists (String c pre), post. Qed.

Lemma occurs_app_r (needle pre text : string) :
  occurs needle text → occurs needle (pre +:+ text).
Proof.
  intros (pre' & post & ->). exists (pre +:+ pre'), post.
  by rewrite str_app_assoc.
Qed.

(** [text] starts with [needle]. *)
Lemma starts_nil (text : string) : ∃ post, text = "" +:+ post.
Proof. by exists text. Qed.

Lemma starts_cons (c : ascii) (needle text : string) :
  (∃ post, text = needle +:+ post) →
  ∃ post, String c text = String c needle +:+ post.
Proof. intros [post ->]. by exists post. Qed.

Lemma starts_app (x needle text : string) :
  (∃ post, text = needle +:+ post) →
  ∃ post, x +:+ text = (x +:+ needle) +:+ post.
Proof. intros [post ->]. exists post. by rewrite str_app_assoc. Qed.

Lemma occurs_starts (needle text : string) :
  (∃ post, text = needle +:+ post) → occurs needle text.
Proof. intros [post ->]. apply occurs_here. Qed.

Ltac starts :=
  repeat first [ apply starts_nil | apply starts_cons | apply starts_app ].

Ltac find_occurrence :=
  first [ apply occurs_starts; solve [starts]
        | apply occurs_app_r; find_occurrence
        | apply occurs_cons; find_occurrence ].

(** X9.  The text a top-level strategy is rendered to defines a
    function of the name the strategy goes by, which is the name a
    [Reuse] of the strategy calls: it holds [def <name>(]. *)
Theorem to_python_defines_name (F32min F32max F64min F64max : string)
    (s : TopLevelStrategy) (var_name module : string)
    (indent tab_size : nat) (txt : string) :
  TopLevelStrategy_to_python F32min F32max F64min F64max
    s var_name module indent tab_size = Ok txt →
  occurs ("def " +:+ name s +:+ "(") txt.
Proof.
  destruct s as [|t|t| | | | |m]; cbn [TopLevelStrategy_to_python name].
  - intros [= <-]. unfold RosBoolStrategy_to_python. find_occurrence.
  - unfold RosIntStrategy_to_python.
    destruct (lookup_type t RosIntStrategy_TYPES) as [[minv maxv]|]; [|done].
    intros [= <-]. find_occurrence.
  - unfold RosFloatStrategy_to_python.
    destruct (lookup_type t _) as [[[minv maxv] width]|]; [|done].
    intros [= <-]. find_occurrence.
  - intros [= <-]. unfold RosStringStrategy_to_python. find_occurrence.
  - intros [= <-]. unfold RosTimeStrategy_to_python. find_occurrence.
  - intros [= <-]. unfold RosDurationStrategy_to_python. find_occurrence.
  - intros [= <-]. unfold HeaderStrategy_to_python. find_occurrence.
  - pose proof (MsgStrategy_to_python_cases m var_name module indent
                  tab_size) as H.
    destruct (count_char "/" (msg_type m)) as [|[|n]];
      [by rewrite H| |by rewrite H].
    destruct H as (pkg & msg & _ & ->).
    destruct (mapM _ _) as [lines|]; [|done].
    intros [= <-]. find_occurrence.
Qed.

(** X9 at the second custom composite of [pkg/Msg]. *)
Lemma to_python_defines_name_witness :
  ∃ txt,
    MsgStrategy_to_python (variant "pkg/Msg" 2) "msg" "strategies" 0 4
    = Ok txt
    ∧ occurs "def pkg_Msg_v2(" txt.
Proof.
  eexists. split; [reflexivity|].
  apply (to_python_defines_name "" "" "" "" (Msg (variant "pkg/Msg" 2))
           "msg" "strategies" 0 4).
  reflexivity.
Defined.

(** ** Index modifiers *)

Lemma format_index (field_name index : string) :
  format "{}[{}]" [field_name; index]
  = Ok (field_name +:+ "[" +:+ index +:+ "]").
Proof. reflexivity. Qed.

Lemma join_cons_snoc (sep p q : string) (ps : list string) :
  join sep (p :: ps ++ [q]) = p +:+ sep +:+ join sep (ps ++ [q]).
Proof. by destruct ps. Qed.

(** The lines of an index modifier. *)
Lemma Modifier_to_python_eq (m : Modifier)
    (field_name var_name module : string) (indent tab_size : nat) :
  Modifier_to_python m field_name var_name module indent tab_size
  = line ← Modifier_to_python (base_modifier m) (target m field_name)
                              var_name module indent tab_size;
    Ok (join (NL "")
          (index_draws m (spaces indent) module var_name field_name
           ++ [line])).
Proof.
  revert field_name.
  induction m as [v|s|v|idx m IH|m IH]; intros field_name;
    cbn [base_modifier target index_draws app].
  - done.
  - by destruct (Modifier_to_python _ _ _ _ _ _).
  - done.
  - cbn [Modifier_to_python]. rewrite format_index.
    unfold mbind at 1, result_bind at 1. cbn [bind]. apply IH.
  - cbn [Modifier_to_python]. rewrite IH.
    destruct (Modifier_to_python (base_modifier m) _ _ _ _ _) as [line|];
      [|done].
    unfold mbind, result_bind. cbn [bind]. rewrite join_cons_snoc.
    reflexivity.
Qed.

(** X10.  An index modifier renders to the lines that draw its random
    indices, outer to inner, followed by the line of its innermost
    modifier at the element the indices address, and fails as that
    modifier fails.  Every random index is drawn into the one variable
    [i] and addressed as [[i]]: under two random indices the element
    that is set is [field[i][i]], after two draws of [i]. *)
Theorem Modifier_to_python_index_lines (m : Modifier)
    (field_name var_name module : string) (indent tab_size : nat)
    (v : Py.value) :
  Modifier_to_python m field_name var_name module indent tab_size
  = (line ← Modifier_to_python (base_modifier m) (target m field_name)
                               var_name module indent tab_size;
     Ok (join (NL "")
           (index_draws m (spaces indent) module var_name field_name
            ++ [line])))
  ∧ Modifier_to_python
      (RandomIndexModifier (RandomIndexModifier (FixedValueModifier v)))
      field_name var_name module indent tab_size
    = Ok (join (NL "")
            [ RandomIndexModifier_IDX (spaces indent) module var_name
                                      field_name;
              RandomIndexModifier_IDX (spaces indent) module var_name
                                      (field_name +:+ "[i]");
              spaces indent +:+ var_name +:+ "."
              +:+ ((field_name +:+ "[i]") +:+ "[i]") +:+ " = " +:+ str v ]).
Proof.
  split; [apply Modifier_to_python_eq|].
  rewrite Modifier_to_python_eq.
  cbn [base_modifier target index_draws app Modifier_to_python].
  reflexivity.
Qed.

(** ** The aliases of the condition compiler *)

Lemma preserves_bind {A B : Type} (P : ConditionTransformer.t → Prop)
    (m : M ConditionTransformer.t A) (k : A → M ConditionTransformer.t B) :
  preserves P m → (∀ a, preserves P (k a)) → preserves P (M_bind m k).
Proof.
  intros Hm Hk self HP. unfold M_bind. specialize (Hm self HP).
  destruct (m self) as [s' [a|e]]; cbn [fst] in *; [|done].
  by apply Hk.
Qed.

Lemma preserves_lift {A : Type} (P : ConditionTransformer.t → Prop)
    (r : result A) : preserves P (lift r).
Proof. by intros self. Qed.

Lemma preserves_ret {A : Type} (P : ConditionTransformer.t → Prop) (a : A) :
  preserves P (mret a : M ConditionTransformer.t A).
Proof. by intros self. Qed.

Lemma preserves_get (P : ConditionTransformer.t → Prop) :
  preserves P (get : M ConditionTransformer.t _).
Proof. by intros self. Qed.

Lemma numbered_append_right_operand (op : string) (v : Value) :
  preserves numbered (append_right_operand op v).
Proof. by intros self. Qed.

Lemma numbered_set_left_operand (v : Value) :
  preserves numbered (set_left_operand v).
Proof. by intros self. Qed.

Lemma alias_path_frames (segments : list (list HplField.t)) (root : string)
    (k : nat) :
  map Loop.alias (path_frames root k segments)
  = map alias_of (seq k (List.length segments)).
Proof.
  revert root k. induction segments as [|f rest IH]; intros root k; [done|].
  cbn [path_frames map List.length seq Loop.alias]. by rewrite IH.
Qed.

Lemma numbered_field_expression_loop (segments : list (list HplField.t))
    (root : string) :
  preserves numbered (_field_expression_loop root segments).
Proof.
  intros self H. rewrite _field_expression_loop_eq. unfold numbered in *.
  cbn [fst loops _var]. rewrite map_app, H, alias_path_frames.
  by rewrite seq_app, map_app.
Qed.

Create HintDb numbered.
#[local] Hint Resolve preserves_lift preserves_ret preserves_get
  numbered_append_right_operand numbered_set_left_operand
  numbered_field_expression_loop : numbered.

Ltac solve_numbered :=
  repeat first
    [ solve [auto with numbered]
    | progress (unfold mbind, M_mbind)
    | apply preserves_bind; [|intros ?] ].

Lemma numbered_field_expression (e : HplFieldExpression.t) :
  preserves numbered (_field_expression e).
Proof. unfold _field_expression. solve_numbered. Qed.

#[local] Hint Resolve numbered_field_expression : numbered.

Lemma numbered_process (c : HplCondition.t) : preserves numbered (_process c).
Proof.
  unfold _process. solve_numbered.
  destruct (HplCondition.is_equality_test c);
    [|destruct (HplCondition.is_comparison_test c)].
  - unfold _equality_test. solve_numbered.
    destruct (HplCondition.value c); solve_numbered.
  - unfold _comparison_test. solve_numbered.
    destruct (HplCondition.value c); solve_numbered.
  - solve_numbered. unfold _inclusion_test.
    destruct (HplCondition.value c); solve_numbered.
Qed.

#[local] Hint Resolve numbered_process : numbered.

Lemma alias_of_inj : Inj (=) (=) alias_of.
Proof.
  intros n m H. unfold alias_of in H.
  apply (String.app_inj "x") in H. by apply pretty_nat_inj in H.
Qed.

(** X11.  Whatever the condition, and whether [gen] returns or
    raises, the loops it leaves bind the aliases [x0], [x1], ... in
    this order and the counter stands at their number: the paths on
    the two sides of a condition never bind the same alias. *)
Theorem gen_aliases_numbered (c : HplCondition.t)
    (self : ConditionTransformer.t) :
  map Loop.alias (loops (gen c self).1)
  = map alias_of (seq 0 (List.length (loops (gen c self).1)))
  ∧ _var (gen c self).1 = List.length (loops (gen c self).1)
  ∧ NoDup (map Loop.alias (loops (gen c self).1)).
Proof.
  assert (numbered (gen c self).1) as H.
  { unfold gen. unfold mbind at 1, M_mbind at 1, M_bind at 1, _reset at 1.
    unfold modify at 1.
    set (self0 := mk [] None [] 0 (_var_prefix self)).
    assert (numbered self0) as H0 by done.
    revert H0. generalize self0. clear self0. intros self0 H0.
    match goal with
    | |- numbered (?m self0).1 =>
        assert (preserves numbered m) as Hm; [|by apply Hm]
    end.
    solve_numbered. }
  unfold numbered in H.
  assert (_var (gen c self).1 = List.length (loops (gen c self).1)) as Hlen.
  { apply (f_equal (@List.length _)) in H.
    by rewrite !length_map, length_seq in H. }
  rewrite <- Hlen. split; [done|split; [done|]].
  rewrite H. apply (@NoDup_fmap_2 _ _ alias_of alias_of_inj), NoDup_seq.
Qed.

(** ** Conditions of no kind *)

(** X12.  For a condition that is neither an equality test nor a
    comparison test nor an inclusion test, [gen] raises AssertionError;
    the loops of the left path are recorded by then, and no comparison
    is. *)
Theorem gen_rejects_no_kind (c : HplCondition.t)
    (self : ConditionTransformer.t) :
  has_kind c = false →
  (gen c self).2 = Raise AssertionError
  ∧ loops (gen c self).1 = left_frames (_var_prefix self) c
  ∧ right_operands (gen c self).1 = [].
Proof. intros H. by rewrite gen_eq, H. Qed.

(** X12 at a condition whose three flags are all false. *)
Lemma gen_rejects_no_kind_witness :
  (gen level_no_kind init).2 = Raise AssertionError
  ∧ loops (gen level_no_kind init).1 = []
  ∧ right_operands (gen level_no_kind init).1 = [].
Proof. apply (gen_rejects_no_kind level_no_kind init). reflexivity. Defined.

(** ** Names across message types *)

Lemma contains_app_cons (c : ascii) (x y : string) :
  contains c (x +:+ String c y) = true.
Proof.
  induction x as [|d x IH].
  - change ("" +:+ String c y) with (String c y). cbn [contains].
    by rewrite Ascii.eqb_refl.
  - rewrite str_app_cons. cbn [contains]. by rewrite IH, orb_true_r.
Qed.

Lemma no_underscore_pretty_N_go (x : N) (s : string) :
  contains "_" s = false → contains "_" (pretty_N_go x s) = false.
Proof.
  revert s. induction (N.lt_wf_0 x) as [x _ IH]. intros s Hs.
  destruct (decide (x = 0)%N) as [->|Hx].
  - by rewrite pretty_N_go_0.
  - rewrite pretty_N_go_step by lia. apply IH.
    + apply N.div_lt; lia.
    + cbn [contains]. rewrite Hs. unfold pretty_N_char. by repeat case_match.
Qed.

Lemma no_underscore_pretty_nat (n : nat) : contains "_" (pretty n) = false.
Proof.
  unfold pretty, pretty_nat, pretty, pretty_N. case_decide; [done|].
  by apply no_underscore_pretty_N_go.
Qed.

Lemma str_app_nil_l (s : string) : "" +:+ s = s.
Proof. reflexivity. Qed.

(** A text is taken apart at its last [_v] in one way. *)
Lemma app_v_inj (a b p q : string) :
  contains "_" p = false → contains "_" q = false →
  a +:+ "_v" +:+ p = b +:+ "_v" +:+ q → a = b ∧ p = q.
Proof.
  intros Hp Hq. revert b.
  induction a as [|c a IH]; intros [|d b] H;
    rewrite ?str_app_cons, ?str_app_nil_l in H.
  - by injection H.
  - exfalso. injection H as Hd H. destruct b as [|e b];
      rewrite ?str_app_cons, ?str_app_nil_l in H.
    + by injection H.
    + injection H as _ H. subst p.
      by rewrite contains_app_cons in Hp.
  - exfalso. injection H as Hc H. destruct a as [|e a];
      rewrite ?str_app_cons, ?str_app_nil_l in H.
    + by injection H.
    + injection H as _ H. subst q.
      by rewrite contains_app_cons in Hq.
  - injection H as Hcd H. subst d. by destruct (IH b H) as [-> ->].
Qed.

Lemma custom_name_eq (t1 t2 : string) (n k : nat) :
  custom_name t1 n = custom_name t2 k
  ↔ replace "/" "_" t1 = replace "/" "_" t2 ∧ n = k.
Proof.
  unfold custom_name. split.
  - intros H. apply app_v_inj in H as [H1 H2];
      [|apply no_underscore_pretty_nat..].
    split; [done|]. by apply pretty_nat_inj in H2.
  - by intros [-> ->].
Qed.

(** X14.  The custom strategies that [make_custom] makes for two
    different message types have the same name exactly when the types
    agree once their slashes are replaced by underscores and had
    equally many custom strategies before: names are unique within a
    message type, not across message types. *)
Theorem make_custom_names_across_types (self : StrategyMap)
    (t1 t2 : string) (m1 m2 : MsgStrategy) :
  t1 ≠ t2 →
  (make_custom self t1).2 = Ok m1 →
  (make_custom (make_custom self t1).1 t2).2 = Ok m2 →
  (msg_type m1 = t1 ∧ msg_type m2 = t2)
  ∧ (_name m1 = _name m2
     ↔ replace "/" "_" t1 = replace "/" "_" t2
       ∧ List.length (custom_list self t1)
         = List.length (custom_list self t2)).
Proof.
  intros Hne H1 H2.
  assert (custom_list (make_custom self t1).1 t2 = custom_list self t2)
    as Hl.
  { rewrite make_custom_eq. unfold custom_list. cbn [fst custom].
    by rewrite lookup_insert_ne. }
  rewrite (make_custom_eq (make_custom self t1).1), Hl in H2.
  rewrite make_custom_eq in H1. cbn [snd] in H1, H2.
  injection H1 as <-. injection H2 as <-.
  split; [done|]. rewrite !variant_name, custom_name_eq.
  split; (intros [Ha Hb]; split; [done|lia]).
Qed.

(** X14 at the first custom strategies of [a/b_c] and [a_b/c]. *)
Lemma make_custom_names_across_types_witness :
  _name (variant "a/b_c" 1) = _name (variant "a_b/c" 1).
Proof.
  apply (make_custom_names_across_types StrategyMap_init "a/b_c" "a_b/c"
           (variant "a/b_c" 1) (variant "a_b/c" 1)).
  - done.
  - reflexivity.
  - reflexivity.
  - split; reflexivity.
Defined.

(** ** The integer strategies of a field *)

(** X15.  Each class method [Integers.<type>()] gives the bounds that
    [RosIntStrategy.TYPES] has for that type, the lower below the
    upper, and renders a draw between these two bounds. *)
Theorem Integers_classmethods_natural_bounds (ros_type : string)
    (s : Strategy) (module : string) :
  (ros_type, s) ∈ Integers_classmethods →
  ∃ minv maxv,
    lookup_type ros_type RosIntStrategy_TYPES = Ok (minv, maxv)
    ∧ minv < maxv
    ∧ s = Integers (Some minv) (Some maxv)
    ∧ Strategy_to_python s module
      = Ok (module +:+ ".integers(min_value=" +:+ pretty minv
            +:+ ", max_value=" +:+ pretty maxv +:+ ")").
Proof.
  unfold Integers_classmethods. intros H.
  repeat (apply elem_of_cons in H as [H|H];
          [injection H as -> ->; do 2 eexists;
           split; [reflexivity|split; [done|split; reflexivity]]|]).
  by apply elem_of_nil in H.
Qed.

(** X15 at [Integers.uint8()]. *)
Lemma Integers_classmethods_natural_bounds_witness :
  ∃ minv maxv,
    lookup_type "uint8" RosIntStrategy_TYPES = Ok (minv, maxv)
    ∧ minv < maxv
    ∧ Integers (Some 0) (Some UINT8_MAX_VALUE)
      = Integers (Some minv) (Some maxv)
    ∧ Strategy_to_python (Integers (Some 0) (Some UINT8_MAX_VALUE))
                         "strategies"
      = Ok ("strategies" +:+ ".integers(min_value=" +:+ pretty minv
            +:+ ", max_value=" +:+ pretty maxv +:+ ")").
Proof.
  apply (Integers_classmethods_natural_bounds "uint8").
  apply list_elem_of_In. vm_compute. tauto.
Defined.

(** ** Rendering of a field *)

Lemma Modifier_to_python_cases (m : Modifier)
    (field_name var_name module : string) (indent tab_size : nat) :
  if modifier_ok m
  then ∃ txt, Modifier_to_python m field_name var_name module indent
                tab_size = Ok txt
  else Modifier_to_python m field_name var_name module indent tab_size
       = Raise AssertionError.
Proof.
  rewrite Modifier_to_python_eq. unfold modifier_ok.
  generalize (target m field_name).
  generalize (index_draws m (spaces indent) module var_name field_name).
  destruct (base_modifier m) as [v|s|v|idx m'|m'] eqn:Hb; intros draws fld.
  - cbn. eauto.
  - cbn [Modifier_to_python].
    pose proof (Strategy_to_python_cases s module) as Hs.
    destruct (lengths_ok s).
    + destruct Hs as [txt ->]. cbn. eauto.
    + by rewrite Hs.
  - cbn. eauto.
  - exfalso. clear -Hb. induction m; cbn in Hb; try done; auto.
  - exfalso. clear -Hb. induction m; cbn in Hb; try done; auto.
Qed.

Lemma mapM_cases {A B : Type} (f : A → result B) (ok : A → bool)
    (e : exn) (xs : list A) :
  (∀ x, if ok x then ∃ y, f x = Ok y else f x = Raise e) →
  if forallb ok xs then ∃ ys, mapM f xs = Ok ys else mapM f xs = Raise e.
Proof.
  intros H. induction xs as [|x xs IH]; cbn [forallb mapM]; [eauto|].
  specialize (H x). destruct (ok x); cbn [andb].
  - destruct H as [y ->]. cbn [bind].
    destruct (forallb ok xs).
    + destruct IH as [ys ->]. cbn. eauto.
    + by rewrite IH.
  - by rewrite H.
Qed.

(** X16.  Rendering a field either returns text or raises
    AssertionError, and it raises exactly when the field has no
    strategy, or its strategy or the strategy of one of its modifiers,
    under any index modifiers, has a negative length. *)
Theorem FieldStrategy_to_python_AssertionError (self : FieldStrategy)
    (var_name module : string) (indent tab_size : nat) :
  (FieldStrategy_to_python self var_name module indent tab_size
   = Raise AssertionError ↔ field_ok self = false)
  ∧ ((∃ txt, FieldStrategy_to_python self var_name module indent tab_size
             = Ok txt) ↔ field_ok self = true).
Proof.
  assert (if field_ok self
          then ∃ txt, FieldStrategy_to_python self var_name module indent
                        tab_size = Ok txt
          else FieldStrategy_to_python self var_name module indent tab_size
               = Raise AssertionError) as H.
  { unfold field_ok, FieldStrategy_to_python.
    destruct (strategy self) as [s|]; [|done].
    pose proof (Strategy_to_python_cases s module) as Hs.
    destruct (lengths_ok s); [|by rewrite Hs].
    destruct Hs as [txt ->]. unfold mbind, result_bind. cbn [bind andb].
    pose proof (mapM_cases
                  (λ m, Modifier_to_python m (field_name self) var_name
                          module indent tab_size)
                  modifier_ok AssertionError (modifiers self)
                  (λ m, Modifier_to_python_cases m _ _ _ _ _)) as Hm.
    destruct (forallb modifier_ok (modifiers self)).
    - destruct Hm as [ys ->]. cbn. eauto.
    - by rewrite Hm. }
  destruct (field_ok self).
  - destruct H as [txt H]. rewrite H. split; split; eauto; done.
  - rewrite H. split; split; try done. by intros [txt ?].
Qed.

(** ** The constructors of the built-in strategies *)

Lemma lookup_type_KeyError {V : Type} (ros_type : string)
    (types : list (string * V)) :
  ros_type ∉ types.*1 → lookup_type ros_type types = Raise KeyError.
Proof.
  induction types as [|[k v] types IH]; [done|].
  cbn [fmap list_fmap fst lookup_type]. intros H.
  apply not_elem_of_cons in H as [Hk H].
  destruct (String.eqb_spec k ros_type) as [->|_]; [done|]. by apply IH.
Qed.

(** X17.  The constructor of an integer or float built-in accepts a
    type exactly when [to_python] finds it in [TYPES]: a strategy that
    was constructed is rendered, and for a type the constructor
    rejects with ValueError the lookup of [to_python] would raise
    KeyError.  The texts of the four float constants are arbitrary. *)
Theorem RosBuiltinStrategy_init_guards_TYPES
    (F32min F32max F64min F64max : string)
    (ros_type module : string) (indent tab_size : nat) :
  ((RosIntStrategy_init ros_type = Ok (RosIntStrategy ros_type)
    ∧ ∃ txt, RosIntStrategy_to_python ros_type module indent tab_size
             = Ok txt)
   ∨ (RosIntStrategy_init ros_type = Raise ValueError
      ∧ RosIntStrategy_to_python ros_type module indent tab_size
        = Raise KeyError))
  ∧ ((RosFloatStrategy_init ros_type = Ok (RosFloatStrategy ros_type)
      ∧ ∃ txt, RosFloatStrategy_to_python F32min F32max F64min F64max
                 ros_type module indent tab_size = Ok txt)
     ∨ (RosFloatStrategy_init ros_type = Raise ValueError
        ∧ RosFloatStrategy_to_python F32min F32max F64min F64max
            ros_type module indent tab_size = Raise KeyError)).
Proof.
  split.
  - unfold RosIntStrategy_init. case_bool_decide as H.
    + left. split; [done|]. cbn in H.
      repeat (apply elem_of_cons in H as [->|H]; [eexists; reflexivity|]).
      by apply elem_of_nil in H.
    + right. split; [done|]. unfold RosIntStrategy_to_python.
      by rewrite lookup_type_KeyError.
  - unfold RosFloatStrategy_init. case_bool_decide as H.
    + left. split; [done|]. unfold RosFloatStrategy_TYPES in H.
      repeat (apply elem_of_cons in H as [->|H]; [eexists; reflexivity|]).
      by apply elem_of_nil in H.
    + right. split; [done|]. unfold RosFloatStrategy_to_python.
      by rewrite lookup_type_KeyError.
Qed.
